(** * dBlockly: the code generator (core/generator.js)

    A shallow embedding of [Blockly.Generator] and the properties its
    specification states about it.

    Conventions of the embedding.
    - A JavaScript string is a [string]: a sequence of code units, here the
      code units below 256 (the Latin-1 range), on which whitespace and
      line-terminator classes of the regular expressions are exact.
    - A JavaScript number used as an operator order is a [JSNum]: an
      integer or NaN.
    - A generator method runs in the monad [M]: it reads and writes the
      per-pass fields of the generator and either returns or throws.
    - A JavaScript object used as a dictionary is a [gmap string _]. *)

From Stdlib Require Import ZArith Ascii String Bool Lia.
From stdpp Require Import base gmap strings list stringmap.

Set Warnings "-register-all".
Local Open Scope Z_scope.

(** ** Code units and character classes *)

Definition LF : ascii := "010"%char.
Definition CR : ascii := "013"%char.
Definition TAB : ascii := "009"%char.
Definition SPACE : ascii := "032"%char.
Definition DQUOTE : ascii := "034"%char.
Definition DOLLAR : ascii := "036"%char.

Definition nl : string := String LF EmptyString.
Definition dq : string := String DQUOTE EmptyString.

Definition isNL (c : ascii) : bool := Ascii.eqb c LF.

(** The class [\s] on code units below 256: TAB, LF, VT, FF, CR, SPACE and
    the no-break space. *)
Definition isSpace (c : ascii) : bool :=
  match nat_of_ascii c with
  | 9 | 10 | 11 | 12 | 13 | 32 | 160 => true
  | _ => false
  end%nat.

(** The class [[ \t]]. *)
Definition isBlank (c : ascii) : bool := Ascii.eqb c SPACE || Ascii.eqb c TAB.

(** The class [.]: every code unit that is no line terminator. *)
Definition isLineTerminator (c : ascii) : bool := Ascii.eqb c LF || Ascii.eqb c CR.

Definition isDigit (c : ascii) : bool :=
  (48 <=? nat_of_ascii c)%nat && (nat_of_ascii c <=? 57)%nat.

Definition digitVal (c : ascii) : nat := (nat_of_ascii c - 48)%nat.

(** ** JavaScript values *)

Inductive JSNum : Type :=
| NaN
| Num (z : Z).

Definition isNaN (n : JSNum) : bool :=
  match n with NaN => true | Num _ => false end.

(** [a <= b] and [a == b] on numbers: false as soon as one side is NaN. *)
Definition num_le (a b : JSNum) : bool :=
  match a, b with
  | Num x, Num y => x <=? y
  | _, _ => false
  end.

Definition num_eq (a b : JSNum) : bool :=
  match a, b with
  | Num x, Num y => x =? y
  | _, _ => false
  end.

Inductive JSValue : Type :=
| JSUndefined
| JSNull
| JSBoolean (b : bool)
| JSNumber (n : JSNum)
| JSString (s : string)
| JSArray (elems : list JSValue)
| JSObject
| JSFunction.

(** The [typeof] operator. *)
Definition typeof (v : JSValue) : string :=
  match v with
  | JSUndefined => "undefined"
  | JSNull => "object"
  | JSBoolean _ => "boolean"
  | JSNumber _ => "number"
  | JSString _ => "string"
  | JSArray _ => "object"
  | JSObject => "object"
  | JSFunction => "function"
  end.

Definition nonEmpty (s : string) : bool :=
  match s with EmptyString => false | String _ _ => true end.

(** ToBoolean. *)
Definition ToBoolean (v : JSValue) : bool :=
  match v with
  | JSUndefined | JSNull => false
  | JSBoolean b => b
  | JSNumber NaN => false
  | JSNumber (Num z) => negb (z =? 0)
  | JSString s => nonEmpty s
  | JSArray _ | JSObject | JSFunction => true
  end.

(** The prefix operator [!]. *)
Definition js_not (v : JSValue) : bool := negb (ToBoolean v).

(** ToNumber on a string, for the numerals the integer model of [JSNum]
    has: surrounding whitespace is dropped, the empty string is 0, an
    optionally signed run of decimal digits is its value, and anything
    else is NaN. *)
Fixpoint dropSpaces (s : string) : string :=
  match s with
  | String c s' => if isSpace c then dropSpaces s' else s
  | EmptyString => EmptyString
  end.

Fixpoint digitsValue (acc : Z) (s : string) : option Z :=
  match s with
  | EmptyString => Some acc
  | String c s' =>
      if isDigit c then digitsValue (10 * acc + Z.of_nat (digitVal c)) s'
      else if isSpace c then
        match dropSpaces s' with EmptyString => Some acc | String _ _ => None end
      else None
  end.

Definition unsignedValue (s : string) : JSNum :=
  match s with
  | String c _ =>
      if isDigit c then
        match digitsValue 0 s with Some z => Num z | None => NaN end
      else NaN
  | EmptyString => NaN
  end.

Definition StringToNumber (s : string) : JSNum :=
  match dropSpaces s with
  | EmptyString => Num 0
  | String c s' =>
      if Ascii.eqb c "+"%char then unsignedValue s'
      else if Ascii.eqb c "-"%char then
        match unsignedValue s' with Num z => Num (- z) | NaN => NaN end
      else unsignedValue (String c s')
  end.

(** [b == s] for a Boolean [b] and a string [s]: both sides go through
    ToNumber and are compared as numbers. *)
Definition boolean_eq_string (b : bool) (s : string) : bool :=
  num_eq (Num (if b then 1 else 0)) (StringToNumber s).

(** ** String.prototype.replace

    The regular expressions of the generator are embedded as matchers: a
    matcher looks at the input from the current position on and, when the
    pattern matches there, returns the matched text and its captures. None
    of the patterns below matches the empty string. *)

Record MatchResult : Type := mkMatch {
  matched : string;
  captures : list string
}.

Definition Matcher : Type := string -> option MatchResult.

Fixpoint dropn (n : nat) (s : string) : string :=
  match n, s with
  | O, _ => s
  | S k, String _ s' => dropn k s'
  | S _, EmptyString => EmptyString
  end.

Definition snoc (s : string) (c : ascii) : string := s +:+ String c EmptyString.

Definition capture (caps : list string) (n : nat) : option string :=
  match n with
  | O => None
  | S k => nth_error caps k
  end.

(** GetSubstitution: the expansion of a replacement template. [$$] is a
    dollar, [$&] the match, [$`] the text before it, [$'] the text after it,
    and [$n] or [$nn] a capture when the pattern has one of that number; any
    other dollar stands for itself. *)
Fixpoint GetSubstitution (m before after : string) (caps : list string)
    (template : string) : string :=
  match template with
  | EmptyString => EmptyString
  | String c t =>
      if negb (Ascii.eqb c DOLLAR) then String c (GetSubstitution m before after caps t)
      else
        match t with
        | EmptyString => String c EmptyString
        | String d t' =>
            if Ascii.eqb d DOLLAR then String DOLLAR (GetSubstitution m before after caps t')
            else if Ascii.eqb d "&"%char then m +:+ GetSubstitution m before after caps t'
            else if Ascii.eqb d "`"%char then before +:+ GetSubstitution m before after caps t'
            else if Ascii.eqb d "'"%char then after +:+ GetSubstitution m before after caps t'
            else if isDigit d then
              let one :=
                match capture caps (digitVal d) with
                | Some cap => cap +:+ GetSubstitution m before after caps t'
                | None => String c (String d (GetSubstitution m before after caps t'))
                end in
              match t' with
              | String e t'' =>
                  if isDigit e then
                    let nn := (10 * digitVal d + digitVal e)%nat in
                    if (nn <=? List.length caps)%nat then
                      match capture caps nn with
                      | Some cap => cap +:+ GetSubstitution m before after caps t''
                      | None =>
                          String c (String d (String e (GetSubstitution m before after caps t'')))
                      end
                    else one
                  else one
              | EmptyString => one
              end
            else String c (GetSubstitution m before after caps t)
        end
  end.

(** [s.replace(re, template)] for a pattern with the [g] flag: every match,
    from left to right and without overlap, is replaced by the expansion of
    the template. [skip] counts the code units of the current match that
    are still to be passed over. *)
Fixpoint replaceAll_from (re : Matcher) (template : string)
    (before : string) (skip : nat) (s : string) : string :=
  match s with
  | EmptyString => EmptyString
  | String c s' =>
      match skip with
      | S k => replaceAll_from re template (snoc before c) k s'
      | O =>
          match re s with
          | Some r =>
              GetSubstitution (matched r) before (dropn (String.length (matched r)) s)
                (captures r) template
              +:+ replaceAll_from re template (snoc before c)
                    (String.length (matched r) - 1) s'
          | None => String c (replaceAll_from re template (snoc before c) O s')
          end
      end
  end.

Definition replaceAll (re : Matcher) (template : string) (s : string) : string :=
  replaceAll_from re template EmptyString O s.

(** [s.replace(re, template)] for a pattern without the [g] flag: only the
    leftmost match is replaced. *)
Fixpoint replaceFirst_from (re : Matcher) (template : string)
    (before : string) (s : string) : string :=
  match re s with
  | Some r =>
      GetSubstitution (matched r) before (dropn (String.length (matched r)) s)
        (captures r) template
      +:+ dropn (String.length (matched r)) s
  | None =>
      match s with
      | EmptyString => EmptyString
      | String c s' => String c (replaceFirst_from re template (snoc before c) s')
      end
  end.

Definition replaceFirst (re : Matcher) (template : string) (s : string) : string :=
  replaceFirst_from re template EmptyString s.

(** [s.replace(re, template)] for a pattern that starts with [^] and has
    neither the [g] nor the [m] flag: it can only match at the very start. *)
Definition replaceAtStart (re : Matcher) (template : string) (s : string) : string :=
  match re s with
  | Some r =>
      GetSubstitution (matched r) EmptyString (dropn (String.length (matched r)) s)
        (captures r) template
      +:+ dropn (String.length (matched r)) s
  | None => s
  end.

(** *** The patterns *)

(** [/\s*\n/] at the head of [s], greedy: the longest run of whitespace
    that is followed by a line feed. Returns the matched text. *)
Fixpoint match_spaces_nl (s : string) : option string :=
  match s with
  | EmptyString => None
  | String c s' =>
      if isSpace c then
        match match_spaces_nl s' with
        | Some r => Some (String c r)
        | None => if isNL c then Some (String c EmptyString) else None
        end
      else None
  end.

(** [/^\s+\n/]: at least one whitespace code unit, then a line feed. *)
Definition re_leading_blank : Matcher := fun s =>
  match s with
  | String c s' =>
      if isSpace c then
        match match_spaces_nl s' with
        | Some r => Some (mkMatch (String c r) [])
        | None => None
        end
      else None
  | EmptyString => None
  end.

Fixpoint allSpace (s : string) : bool :=
  match s with
  | EmptyString => true
  | String c s' => isSpace c && allSpace s'
  end.

(** [/\n\s+$/]: a line feed, then whitespace up to the end of the string
    and at least one code unit of it. *)
Definition re_trailing_blank : Matcher := fun s =>
  match s with
  | String c s' =>
      if isNL c && nonEmpty s' && allSpace s' then Some (mkMatch s []) else None
  | EmptyString => None
  end.

(** [/[ \t]*\n/] at the head of [s]. *)
Fixpoint match_blanks_nl (s : string) : option string :=
  match s with
  | EmptyString => None
  | String c s' =>
      if isBlank c then
        match match_blanks_nl s' with
        | Some r => Some (String c r)
        | None => None
        end
      else if isNL c then Some (String c EmptyString) else None
  end.

(** [/[ \t]+\n/g]: spaces and tabs in front of a line feed. *)
Definition re_blanks_nl : Matcher := fun s =>
  match s with
  | String c s' =>
      if isBlank c then
        match match_blanks_nl s' with
        | Some r => Some (mkMatch (String c r) [])
        | None => None
        end
      else None
  | EmptyString => None
  end.

(** [/\n(.)/g]: a line feed and one code unit that is no line terminator,
    which is capture 1. *)
Definition re_nl_char : Matcher := fun s =>
  match s with
  | String c (String d _) =>
      if isNL c && negb (isLineTerminator d)
      then Some (mkMatch (String c (String d EmptyString)) [String d EmptyString])
      else None
  | _ => None
  end.

(** A pattern that is a literal text. *)
Fixpoint startsWith (p s : string) : bool :=
  match p, s with
  | EmptyString, _ => true
  | String a p', String b s' => Ascii.eqb a b && startsWith p' s'
  | String _ _, EmptyString => false
  end.

Definition re_literal (p : string) : Matcher := fun s =>
  if nonEmpty p && startsWith p s then Some (mkMatch p []) else None.

(** [Array.prototype.join] on an array of strings. *)
Fixpoint join (sep : string) (l : list string) : string :=
  match l with
  | [] => EmptyString
  | [x] => x
  | x :: l' => x +:+ sep +:+ join sep l'
  end.

(** ** The name database

    [this.variableDB_] is a [Blockly.Names] object, which this file of the
    repository only uses: [getDistinctName] is taken as an interface. *)

(** Modelled from the spec: the Name Database is an external collaborator
    that resolves desired identifier names to collision-free actual names
    within a naming category. [taken db] is the set of names handed out so
    far, and a name that is handed out is not one of them. *)
Class NameDatabase : Type := {
  Names : Type;
  getDistinctName : Names -> string -> string -> string * Names;
  taken : Names -> gset string;
  getDistinctName_fresh : forall db name category,
    (getDistinctName db name category).1 ∉ taken db;
  getDistinctName_taken : forall db name category,
    taken (getDistinctName db name category).2
    = {[ (getDistinctName db name category).1 ]} ∪ taken db
}.

(** Modelled from the spec: a name database that hands out the desired name
    when it is free and the desired name with a number appended otherwise. *)
#[export] Instance counterNames : NameDatabase := {|
  Names := gset string;
  getDistinctName := fun db name _ =>
    let safeName := fresh_string_of_set name db in (safeName, {[ safeName ]} ∪ db);
  taken := fun db => db;
  getDistinctName_fresh := fun db name _ => fresh_string_of_set_fresh db name;
  getDistinctName_taken := fun db name _ => eq_refl
|}.

(** ** Generator state and the monad of its methods *)

Inductive Exn : Type :=
| Thrown (msg : string)       (* throw 'msg' *)
| TypeError (what : string).  (* raised by the engine; [what] only describes it *)

Inductive Outcome (A : Type) : Type :=
| Ok (a : A)
| Throw (e : Exn).
Arguments Ok {A} a.
Arguments Throw {A} e.

Section Generator.
Context `{NameDatabase}.

(** The fields of a generator that change during a pass. The keys of the
    two dictionaries are taken not to collide with the property names an
    object inherits. *)
Record GenState : Type := mkState {
  RESERVED_WORDS_ : string;
  definitions_ : gmap string string;
  functionNames_ : gmap string string;
  variableDB_ : Names
}.

Definition M (A : Type) : Type := GenState -> Outcome A * GenState.

Definition ret {A : Type} (a : A) : M A := fun st => (Ok a, st).
Definition throw {A : Type} (e : Exn) : M A := fun st => (Throw e, st).
Definition bind {A B : Type} (m : M A) (k : A -> M B) : M B := fun st =>
  match m st with
  | (Ok a, st') => k a st'
  | (Throw e, st') => (Throw e, st')
  end.

Notation "x <- m ;; k" := (bind m (fun x => k))
  (at level 100, m at next level, right associativity).

(** ** Blocks *)

(** A block as the generator reads it: its type tag, its disabled flag,
    whether it has an output connection, its comment text, the blocks
    connected to its named inputs, and its next connection ([None] when the
    block has none, [Some None] when nothing is connected to it). *)
Inductive Block : Type := mkBlock {
  type : string;
  disabled : bool;
  outputConnection : bool;
  commentText : string;
  inputs : list (string * Block);
  nextConnection : option (option Block)
}.

(** [block.getInputTargetBlock(name)] *)
Fixpoint lookupInput {A : Type} (name : string) (l : list (string * A)) : option A :=
  match l with
  | [] => None
  | (n, a) :: l' => if String.eqb n name then Some a else lookupInput name l'
  end.

Definition getInputTargetBlock (block : Block) (name : string) : option Block :=
  lookupInput name (inputs block).

(** [block.nextConnection && block.nextConnection.targetBlock()] *)
Definition nextBlock (block : Block) : option Block :=
  match nextConnection block with
  | Some target => target
  | None => None
  end.

(** ** Translation results *)

(** What a translation rule and [blockToCode] return: a string for a
    statement block, the array [[code, order]] for a value block. *)
Inductive Translation : Type :=
| Str (s : string)
| Tuple (code : string) (order : JSNum).

Definition js_of (t : Translation) : JSValue :=
  match t with
  | Str s => JSString s
  | Tuple code order => JSArray [JSString code; JSNumber order]
  end.

(** ** The generator *)

(** The methods of the generator a translation rule calls for its block:
    [Blockly.Lang.valueToCode(block, name, order)] and
    [Blockly.Lang.statementToCode(block, name)]. *)
Record Methods : Type := mkMethods {
  m_valueToCode : string -> JSNum -> M string;
  m_statementToCode : string -> M string
}.

Definition Rule : Type := Block -> Methods -> M Translation.

(** A generator: its name and what a language binding puts on it. The
    translation rules are properties of the generator object, named by block
    type: [rules] holds them. [values] holds the other properties the
    binding puts on the object (the orders, for instance), and [callOn] what
    [blockToCode] comes to when the function it finds under a key is no
    translation rule and is called on the block: that depends on the block
    object and on what [scrub_] does with a value that is no code. [scrub_]
    is given the block, its code and the computation
    [this.blockToCode(nextBlock)]. *)
Record Generator : Type := mkGenerator {
  name_ : string;
  NAME_TYPE : string;
  rules : gmap string Rule;
  init : M unit;
  finish : string -> M string;
  scrubNakedValue : option (string -> M string);
  scrub_ : Block -> string -> M Translation -> M string;
  values : gmap string JSValue;
  callOn : string -> Block -> M Translation -> M Translation
}.

(** [prefixLines]: prefix + text.replace(/\n(.)/g, '\n' + prefix + '$1') *)
Definition prefixLines (text prefix : string) : string :=
  prefix +:+ replaceAll re_nl_char (nl +:+ prefix +:+ "$1") text.

(** A connected block together with the computation of
    [this.blockToCode] on it. *)
Definition Target : Type := (Block * M Translation)%type.

(** The body of [valueToCode], over the targets of the inputs of [block]. *)
Definition valueToCode_in (blockType : string) (target : string -> option Target)
    (name : string) (order : JSNum) : M string :=
  if isNaN order then
    throw (Thrown ("Expecting valid order from block " +:+ dq +:+ blockType +:+ dq +:+ "."))
  else
    match target name with
    | None => ret EmptyString
    | Some (targetBlock, translate) =>
        tuple <- translate ;;
        match tuple with
        | Str EmptyString => ret EmptyString
        | Str (String _ _) =>
            throw (Thrown ("Expecting tuple from value block " +:+ dq
                           +:+ type targetBlock +:+ dq +:+ "."))
        | Tuple code innerOrder =>
            if isNaN innerOrder then
              throw (Thrown ("Expecting valid order from value block " +:+ dq
                             +:+ type targetBlock +:+ dq +:+ "."))
            else if nonEmpty code && num_le order innerOrder then
              if num_eq order innerOrder
                 || (num_eq order (Num 0) || num_eq order (Num 99))
              then ret code
              else ret ("(" +:+ code +:+ ")")
            else ret code
        end
    end.

(** The condition of the guard of [statementToCode]:
    [!typeof code == "string"]. *)
Definition statementGuard (code : JSValue) : bool :=
  boolean_eq_string (js_not (JSString (typeof code))) "string".

(** The body of [statementToCode], over the targets of the inputs of
    [block]. A tuple is not a string: [prefixLines] fails on it with a
    TypeError, as an array has no [replace]. *)
Definition statementToCode_in (target : string -> option Target) (name : string)
    : M string :=
  let targetBlock := target name in
  code <- match targetBlock with
          | Some (_, translate) => translate
          | None => ret (Str EmptyString)
          end ;;
  if statementGuard (js_of code) then
    match targetBlock with
    | Some (t, _) =>
        throw (Thrown ("Expecting code from statement block " +:+ dq
                       +:+ type t +:+ dq +:+ "."))
    | None => throw (TypeError "targetBlock is null")
    end
  else
    match code with
    | Str s => if nonEmpty s then ret (prefixLines s "  ") else ret s
    | Tuple _ _ => throw (TypeError "text.replace is not a function")
    end.

Definition FUNCTION_NAME_PLACEHOLDER_ : string := "{leCUI8hutHZI4480Dc}".

(** ** The property lookup [this[block.type]]

    What the generator object holds under a key besides the translation
    rules: a value that is no function ([undefined] when there is no such
    property), [Object.prototype.toString], the generator's own
    [valueToCode], or another function. *)
Inductive Property : Type :=
| Value (v : JSValue)
| ToString
| ValueToCode
| Function.

(** The objects the generator holds or inherits. *)
Definition generatorObjects : list string :=
  [ "FUNCTION_NAME_PLACEHOLDER_REGEXP_"; "definitions_"; "functionNames_";
    "variableDB_"; "__proto__" ].

(** The methods of [Blockly.Generator.prototype] and the hooks of the
    binding that every pass calls. *)
Definition generatorMethods : list string :=
  [ "workspaceToCode"; "prefixLines"; "allNestedComments"; "blockToCode";
    "statementToCode"; "addReservedWords"; "provideFunction_";
    "init"; "finish"; "scrub_" ].

(** The functions inherited from [Object.prototype]. *)
Definition objectPrototype : list string :=
  [ "constructor"; "toLocaleString"; "valueOf"; "hasOwnProperty";
    "isPrototypeOf"; "propertyIsEnumerable"; "__defineGetter__";
    "__defineSetter__"; "__lookupGetter__"; "__lookupSetter__" ].

(** [this[key]] for a key that names no translation rule. The properties
    the binding puts on the object come first, then the fields the
    constructor sets, then what the prototypes give. *)
Definition otherProperty (g : Generator) (st : GenState) (key : string) : Property :=
  match values g !! key with
  | Some JSFunction => Function
  | Some v => Value v
  | None =>
      if String.eqb key "name_" then Value (JSString (name_ g))
      else if String.eqb key "RESERVED_WORDS_" then Value (JSString (RESERVED_WORDS_ st))
      else if String.eqb key "NAME_TYPE" then Value (JSString (NAME_TYPE g))
      else if String.eqb key "FUNCTION_NAME_PLACEHOLDER_"
      then Value (JSString FUNCTION_NAME_PLACEHOLDER_)
      else if existsb (String.eqb key) generatorObjects then Value JSObject
      else if String.eqb key "toString" then ToString
      else if String.eqb key "valueToCode" then ValueToCode
      else if String.eqb key "scrubNakedValue"
      then match scrubNakedValue g with Some _ => Function | None => Value JSUndefined end
      else if existsb (String.eqb key) (generatorMethods ++ objectPrototype) then Function
      else Value JSUndefined
  end.

(** [blockToCode] on an enabled block whose type names no translation rule:
    the guard [if (!func)] throws when the property is falsy; a truthy
    value that is no function has no [call]; [toString] called on the block
    gives the text of an object, which goes to [scrub_]; [valueToCode]
    called on the block gets no order. *)
Definition withoutRule (g : Generator) (block : Block) (next : M Translation)
  : M Translation := fun st =>
  match otherProperty g st (type block) with
  | Value v =>
      if ToBoolean v then throw (TypeError "func.call is not a function") st
      else throw (Thrown ("Language " +:+ dq +:+ name_ g +:+ dq
                          +:+ " does not know how to generate code for block type "
                          +:+ dq +:+ type block +:+ dq +:+ ".")) st
  | ToString => (c' <- scrub_ g block "[object Object]" next ;; ret (Str c')) st
  | ValueToCode =>
      throw (Thrown ("Expecting valid order from block " +:+ dq
                     +:+ type block +:+ dq +:+ ".")) st
  | Function => callOn g (type block) block next st
  end.

(** [blockToCode] on a block that is not null. *)
Fixpoint blockToCode_at (g : Generator) (block : Block) {struct block} : M Translation :=
  if disabled block then
    match nextConnection block with
    | Some (Some nb) => blockToCode_at g nb
    | _ => ret (Str EmptyString)
    end
  else
    let next := match nextConnection block with
                | Some (Some nb) => blockToCode_at g nb
                | _ => ret (Str EmptyString)
                end in
    match rules g !! type block with
    | None => withoutRule g block next
    | Some func =>
        let target := fun name =>
          lookupInput name (map (fun p => (p.1, (p.2, blockToCode_at g p.2))) (inputs block)) in
        code <- func block (mkMethods (valueToCode_in (type block) target)
                                      (statementToCode_in target)) ;;
        match code with
        | Tuple c order => c' <- scrub_ g block c next ;; ret (Tuple c' order)
        | Str c => c' <- scrub_ g block c next ;; ret (Str c')
        end
    end.

(** [blockToCode]: the empty string on null, [blockToCode_at] otherwise. *)
Definition blockToCode (g : Generator) (block : option Block) : M Translation :=
  match block with
  | None => ret (Str EmptyString)
  | Some b => blockToCode_at g b
  end.

(** The blocks connected to the inputs of [block], each with the
    computation of [this.blockToCode] on it. *)
Definition targets (g : Generator) (block : Block) : string -> option Target :=
  fun name =>
    lookupInput name (map (fun p => (p.1, (p.2, blockToCode_at g p.2))) (inputs block)).

Definition valueToCode (g : Generator) (block : Block) (name : string) (order : JSNum)
    : M string :=
  valueToCode_in (type block) (targets g block) name order.

Definition statementToCode (g : Generator) (block : Block) (name : string) : M string :=
  statementToCode_in (targets g block) name.

(** The loop of [workspaceToCode] over the top blocks; [code] is the array
    of the lines pushed so far. *)
Fixpoint translateTopBlocks (g : Generator) (blocks : list Block) (code : list string)
    : M (list string) :=
  match blocks with
  | [] => ret code
  | block :: rest =>
      line <- blockToCode g (Some block) ;;
      let line := match line with
                  | Tuple c _ => c
                  | Str l => l
                  end in
      if nonEmpty line then
        line <- (if outputConnection block then
                   match scrubNakedValue g with
                   | Some scrub => scrub line
                   | None => ret line
                   end
                 else ret line) ;;
        translateTopBlocks g rest (code ++ [line])
      else translateTopBlocks g rest code
  end.

(** The final scrubbing of whitespace of [workspaceToCode]. *)
Definition scrubWhitespace (code : string) : string :=
  let code := replaceAtStart re_leading_blank EmptyString code in
  let code := replaceFirst re_trailing_blank nl code in
  replaceAll re_blanks_nl nl code.

(** [workspaceToCode]; [topBlocks] is
    [Blockly.mainWorkspace.getTopBlocks(true)]. *)
Definition workspaceToCode (g : Generator) (topBlocks : list Block) : M string :=
  _ <- init g ;;
  code <- translateTopBlocks g topBlocks [] ;;
  code <- finish g (join nl code) ;;
  ret (scrubWhitespace code).

Definition addReservedWords (words : string) : M unit := fun st =>
  (Ok tt, mkState (RESERVED_WORDS_ st +:+ words +:+ ",")
                  (definitions_ st) (functionNames_ st) (variableDB_ st)).

Definition FUNCTION_NAME_PLACEHOLDER_REGEXP_ : Matcher :=
  re_literal FUNCTION_NAME_PLACEHOLDER_.

(** Whether [object[key]] is truthy: the key is there and its text is not
    empty. *)
Definition truthyText (o : option string) : bool :=
  match o with
  | Some text => nonEmpty text
  | None => false
  end.

(** [provideFunction_]; the result is [this.functionNames_[desiredName]],
    [None] when that is undefined. *)
Definition provideFunction_ (g : Generator) (desiredName : string) (code : list string)
    : M (option string) := fun st =>
  let st' :=
    if negb (truthyText (definitions_ st !! desiredName)) then
      let functionName := getDistinctName (variableDB_ st) desiredName (NAME_TYPE g) in
      mkState (RESERVED_WORDS_ st)
        (<[desiredName :=
             replaceAll FUNCTION_NAME_PLACEHOLDER_REGEXP_ functionName.1 (join nl code)]>
           (definitions_ st))
        (<[desiredName := functionName.1]> (functionNames_ st))
        functionName.2
    else st in
  (Ok (functionNames_ st' !! desiredName), st').

(** ** The hook [scrub_] *)

Definition numToString (n : JSNum) : string :=
  match n with
  | NaN => "NaN"
  | Num z => pretty z
  end.

(** [code + t]: a tuple is joined with a comma when it becomes a string. *)
Definition translationToString (t : Translation) : string :=
  match t with
  | Str s => s
  | Tuple code order => code +:+ "," +:+ numToString order
  end.

(** Modelled from the spec: [scrub_] is defined by the language bindings,
    which are not under src/. It appends any trailing comment text and
    recursively appends the code for the block's next-linked block;
    [comment] is how the language writes the comment text of a block. *)
Definition scrub_spec (comment : string -> string)
    : Block -> string -> M Translation -> M string :=
  fun block code next =>
    nextCode <- next ;;
    ret (code +:+ comment (commentText block) +:+ translationToString nextCode).

End Generator.

(** ** The words of the specification *)

(** [prefixLines] in the words of the specification: the prefix is put
    before the first line and before every line that follows an embedded
    newline, that is a newline that is not the end of the text. *)
Fixpoint prefixAfterNewlines (prefix text : string) : string :=
  match text with
  | EmptyString => EmptyString
  | String c rest =>
      if isNL c && nonEmpty rest
      then String c (prefix +:+ prefixAfterNewlines prefix rest)
      else String c (prefixAfterNewlines prefix rest)
  end.

Definition prefixLines_spec (text prefix : string) : string :=
  prefix +:+ prefixAfterNewlines prefix text.

(** The first line of [s] is blank: only whitespace up to its newline. *)
Fixpoint startsWithBlankLine (s : string) : bool :=
  match s with
  | EmptyString => false
  | String c s' => isNL c || (isSpace c && startsWithBlankLine s')
  end.

(** [s] ends with a newline. *)
Fixpoint endsWithNewline (s : string) : bool :=
  match s with
  | EmptyString => false
  | String c EmptyString => isNL c
  | String _ s' => endsWithNewline s'
  end.

(** [s] ends with two newlines. *)
Fixpoint endsWithTwoNewlines (s : string) : bool :=
  match s with
  | EmptyString => false
  | String c s' =>
      match s' with
      | String d EmptyString => isNL c && isNL d
      | _ => endsWithTwoNewlines s'
      end
  end.

(** A space or a tab stands right before a newline of [s]. *)
Fixpoint blankBeforeNewline (s : string) : bool :=
  match s with
  | EmptyString => false
  | String c s' =>
      match s' with
      | String d _ => (isBlank c && isNL d) || blankBeforeNewline s'
      | EmptyString => false
      end
  end.

(** A space or a tab is the last code unit of [s]. *)
Fixpoint endsWithBlank (s : string) : bool :=
  match s with
  | EmptyString => false
  | String c EmptyString => isBlank c
  | String _ s' => endsWithBlank s'
  end.

(** A newline of [s] is followed by whitespace only, and by some, up to the
    end: the pattern [/\n\s+$/] matches somewhere. *)
Fixpoint blankTail (s : string) : bool :=
  match s with
  | EmptyString => false
  | String c s' => (isNL c && nonEmpty s' && allSpace s') || blankTail s'
  end.

(** [s] starts with whitespace, one code unit at least, and then a newline:
    the pattern [/^\s+\n/] matches. *)
Definition blankHead (s : string) : bool :=
  match re_leading_blank s with
  | Some _ => true
  | None => false
  end.

(** The whitespace normalization the specification states of the output of
    [workspaceToCode]. *)
Definition normalized (s : string) : Prop :=
  startsWithBlankLine s = false
  /\ endsWithNewline s = true /\ endsWithTwoNewlines s = false
  /\ blankBeforeNewline s = false /\ endsWithBlank s = false.

(** The atomic level 0 and the level 99 of no precedence. *)
Definition isSentinel (n : Z) : bool := (n =? 0) || (n =? 99).

(** The bracketing the specification states for [valueToCode]: parentheses
    exactly when the inner order [n] is at or above [maxOrder], the two
    differ, and neither is the atomic level 0 or the sentinel level 99. *)
Definition parenthesize_spec (s : string) (n maxOrder : Z) : string :=
  if (maxOrder <=? n) && negb (n =? maxOrder)
     && negb (isSentinel n) && negb (isSentinel maxOrder)
  then "(" +:+ s +:+ ")"
  else s.

(** ** The replacements, by recursion on the text *)

(** What [prefixLines] does to the text, written out by recursion: the
    prefix goes after every newline that is followed by a code unit other
    than a line terminator. *)
Fixpoint prefixContentLines (prefix text : string) : string :=
  match text with
  | EmptyString => EmptyString
  | String c rest =>
      match rest with
      | String d _ =>
          if isNL c && negb (isLineTerminator d)
          then String c (prefix +:+ prefixContentLines prefix rest)
          else String c (prefixContentLines prefix rest)
      | EmptyString => String c EmptyString
      end
  end.

(** No dollar sign in [s]: as a replacement template it stands for itself. *)
Fixpoint noDollar (s : string) : bool :=
  match s with
  | EmptyString => true
  | String c s' => negb (Ascii.eqb c DOLLAR) && noDollar s'
  end.

(** No newline of [text] is followed by a line terminator: no line after
    the first one is empty or starts with a carriage return. *)
Fixpoint noEmptyLine (text : string) : bool :=
  match text with
  | EmptyString => true
  | String c rest =>
      match rest with
      | String d _ => negb (isNL c && isLineTerminator d) && noEmptyLine rest
      | EmptyString => true
      end
  end.

(** The replacements of [scrubWhitespace], written out by recursion.
    [stripTail] cuts the text after the first newline that only whitespace
    follows; [stripBlanks] drops every space and tab of a run that ends at
    a newline. *)
Fixpoint stripTail (s : string) : string :=
  match s with
  | EmptyString => EmptyString
  | String c s' =>
      if isNL c && nonEmpty s' && allSpace s' then nl else String c (stripTail s')
  end.

Definition blanksThenNL (s : string) : bool :=
  match match_blanks_nl s with
  | Some _ => true
  | None => false
  end.

Fixpoint stripBlanks (s : string) : string :=
  match s with
  | EmptyString => EmptyString
  | String c s' =>
      if isBlank c && blanksThenNL s' then stripBlanks s' else String c (stripBlanks s')
  end.

(** The whitespace at the head of [s] has a newline in it. *)
Definition leadNL (s : string) : bool :=
  match match_spaces_nl s with
  | Some _ => true
  | None => false
  end.

Definition startsWithNL (s : string) : bool :=
  match s with
  | String c _ => isNL c
  | EmptyString => false
  end.

(** ** Further functions of the generator *)

(** The loop of [allNestedComments]: the comment texts that are not empty,
    in the order of the blocks. *)
Fixpoint nestedComments (blocks : list Block) : list string :=
  match blocks with
  | [] => []
  | block :: rest =>
      if nonEmpty (commentText block)
      then commentText block :: nestedComments rest
      else nestedComments rest
  end.

(** [allNestedComments]; [descendants] is [block.getDescendants()]. *)
Definition allNestedComments (descendants : list Block) : string :=
  let comments := nestedComments descendants in
  let comments := match comments with
                  | [] => comments
                  | _ :: _ => comments ++ [EmptyString]
                  end in
  join nl comments.

(** The first block on the next-chain of [block] that is not disabled. *)
Fixpoint firstEnabled (block : Block) : option Block :=
  if disabled block then
    match nextConnection block with
    | Some (Some nb) => firstEnabled nb
    | _ => None
    end
  else Some block.

(** The code units of [s] that are no whitespace. *)
Fixpoint withoutSpaces (s : string) : string :=
  match s with
  | EmptyString => EmptyString
  | String c s' => if isSpace c then withoutSpaces s' else String c (withoutSpaces s')
  end.

(** [p] occurs in [s]. *)
Fixpoint occurs (p s : string) : bool :=
  match s with
  | EmptyString => startsWith p EmptyString
  | String _ s' => startsWith p s || occurs p s'
  end.

(** The code unit [c] is not in [s]. *)
Fixpoint noChar (c : ascii) (s : string) : bool :=
  match s with
  | EmptyString => true
  | String d s' => negb (Ascii.eqb c d) && noChar c s'
  end.

(** No line terminator in [s]. *)
Fixpoint noLineTerminator (s : string) : bool :=
  match s with
  | EmptyString => true
  | String c s' => negb (isLineTerminator c) && noLineTerminator s'
  end.

(** [s] starts with a code unit that is no line terminator. *)
Definition contentStart (s : string) : bool :=
  match s with
  | String d _ => negb (isLineTerminator d)
  | EmptyString => false
  end.

(** The texts of [l], one after the other. *)
Fixpoint concatAll (l : list string) : string :=
  match l with
  | [] => EmptyString
  | x :: l' => x +:+ concatAll l'
  end.

Section Registry.
Context `{NameDatabase}.

(** [addReservedWords] called on each batch of [batches] in turn. *)
Fixpoint addAllReservedWords (batches : list string) : M unit :=
  match batches with
  | [] => ret tt
  | words :: rest => bind (addReservedWords words) (fun _ => addAllReservedWords rest)
  end.

(** No two logical names have the same actual name. *)
Definition namesInjective (st : GenState) : Prop :=
  forall k1 k2 n,
    functionNames_ st !! k1 = Some n -> functionNames_ st !! k2 = Some n -> k1 = k2.

(** Every actual name is one the name database has handed out. *)
Definition namesTaken (st : GenState) : Prop :=
  forall k n, functionNames_ st !! k = Some n -> n ∈ taken (variableDB_ st).

(** The states of a pass that starts with no function name and goes on by
    calls of [provideFunction_] and [addReservedWords]. *)
Inductive inPass (g : Generator) : GenState -> Prop :=
| inPass_start st : functionNames_ st = ∅ -> inPass g st
| inPass_provide st desiredName code :
    inPass g st -> inPass g (provideFunction_ g desiredName code st).2
| inPass_reserve st words :
    inPass g st -> inPass g (addReservedWords words st).2.

End Registry.

(** ** The pair of scrollbars (the file with [resize] and [set])

    The metrics of the workspace are numbers; the scrollbars and the corner
    rectangle are other objects, so [resize] is embedded with the calls it
    makes on them. *)

Module ScrollbarPair.

Record Metrics : Type := mkMetrics {
  viewHeight : JSNum;
  viewWidth : JSNum;
  contentHeight : JSNum;
  contentWidth : JSNum;
  viewTop : JSNum;
  viewLeft : JSNum;
  contentTop : JSNum;
  contentLeft : JSNum;
  absoluteTop : JSNum;
  absoluteLeft : JSNum
}.

(** [a != b] on numbers: true as soon as one side is NaN. *)
Definition ne (a b : JSNum) : bool := negb (num_eq a b).

Inductive Call : Type :=
| HScrollResize (hostMetrics : Metrics)  (* this.hScroll.resize(hostMetrics) *)
| VScrollResize (hostMetrics : Metrics)  (* this.vScroll.resize(hostMetrics) *)
| CornerSetX                             (* this.corner_.setAttribute('x', ...) *)
| CornerSetY.                            (* this.corner_.setAttribute('y', ...) *)

(** [resize]; [getMetrics] is what [this.workspace_.getMetrics()] returns.
    The result is the new [this.oldHostMetrics_] and the calls made, in
    their order. *)
Definition resize (getMetrics : option Metrics) (oldHostMetrics_ : option Metrics)
    : option Metrics * list Call :=
  match getMetrics with
  | None => (oldHostMetrics_, [])
  | Some hostMetrics =>
      let window :=
        match oldHostMetrics_ with
        | None => true
        | Some old =>
            ne (viewWidth old) (viewWidth hostMetrics)
            || ne (viewHeight old) (viewHeight hostMetrics)
            || ne (absoluteTop old) (absoluteTop hostMetrics)
            || ne (absoluteLeft old) (absoluteLeft hostMetrics)
        end in
      let horizontal :=
        match oldHostMetrics_ with
        | None => true
        | Some old =>
            ne (contentWidth old) (contentWidth hostMetrics)
            || ne (viewLeft old) (viewLeft hostMetrics)
            || ne (contentLeft old) (contentLeft hostMetrics)
        end in
      let vertical :=
        match oldHostMetrics_ with
        | None => true
        | Some old =>
            ne (contentHeight old) (contentHeight hostMetrics)
            || ne (viewTop old) (viewTop hostMetrics)
            || ne (contentTop old) (contentTop hostMetrics)
        end in
      let resizeH := if window then true else horizontal in
      let resizeV := if window then true else vertical in
      let cornerX :=
        match oldHostMetrics_ with
        | None => true
        | Some old =>
            ne (viewWidth old) (viewWidth hostMetrics)
            || ne (absoluteLeft old) (absoluteLeft hostMetrics)
        end in
      let cornerY :=
        match oldHostMetrics_ with
        | None => true
        | Some old =>
            ne (viewHeight old) (viewHeight hostMetrics)
            || ne (absoluteTop old) (absoluteTop hostMetrics)
        end in
      (Some hostMetrics,
       (if resizeH then [HScrollResize hostMetrics] else [])
       ++ (if resizeV then [VScrollResize hostMetrics] else [])
       ++ (if cornerX then [CornerSetX] else [])
       ++ (if cornerY then [CornerSetY] else []))
  end.

(** No metric of [m] is NaN. *)
Definition numeric (m : Metrics) : bool :=
  negb (isNaN (viewHeight m)) && negb (isNaN (viewWidth m))
  && negb (isNaN (contentHeight m)) && negb (isNaN (contentWidth m))
  && negb (isNaN (viewTop m)) && negb (isNaN (viewLeft m))
  && negb (isNaN (contentTop m)) && negb (isNaN (contentLeft m))
  && negb (isNaN (absoluteTop m)) && negb (isNaN (absoluteLeft m)).

(** The window has the same size and place in [a] and [b]. *)
Definition sameWindow (a b : Metrics) : bool :=
  num_eq (viewWidth a) (viewWidth b) && num_eq (viewHeight a) (viewHeight b)
  && num_eq (absoluteTop a) (absoluteTop b) && num_eq (absoluteLeft a) (absoluteLeft b).

End ScrollbarPair.

(** ** A small language binding, for concrete runs *)

Module Demo.

Notation "x <- m ;; k" := (bind m (fun x => k))
  (at level 100, m at next level, right associativity).

(** The state at the start of a pass. *)
Definition st0 : GenState := mkState EmptyString ∅ ∅ (∅ : gset string).

Definition textRule (code : string) : Rule := fun _ _ => ret (Str code).

Definition valueRule (code : string) (order : JSNum) : Rule :=
  fun _ _ => ret (Tuple code order).

(** A binary operator over the inputs A and B. *)
Definition binRule (op : string) (order : Z) : Rule := fun _ m =>
  a <- m_valueToCode m "A" (Num order) ;;
  b <- m_valueToCode m "B" (Num order) ;;
  ret (Tuple (a +:+ op +:+ b) (Num order)).

(** A loop over the statement input DO. *)
Definition loopRule : Rule := fun _ m =>
  body <- m_statementToCode m "DO" ;;
  ret (Str ("while (true) {" +:+ nl +:+ body +:+ "}" +:+ nl)).

Definition demoRules : gmap string Rule :=
  list_to_map
    [ ("hello", textRule ("print('hello')" +:+ nl));
      ("skip", textRule ("print('skip')" +:+ nl));
      ("world", textRule ("print('world')" +:+ nl));
      ("ragged", textRule (nl +:+ "x  "));
      ("bare", textRule "stmt;");
      ("a", valueRule "a" (Num 0));
      ("b", valueRule "b" (Num 0));
      ("x", valueRule "x" (Num 0));
      ("pair", valueRule "y, z" (Num 99));
      ("blank", valueRule EmptyString (Num 4));
      ("add", binRule " + " 4);
      ("mul", binRule " * " 3);
      ("loop", loopRule) ].

Definition demoInit : M unit := fun st =>
  (Ok tt, mkState (RESERVED_WORDS_ st) ∅ ∅ (variableDB_ st)).

(** The orders of the binding, and a binding that leaves the call of
    another function on a block to fail. *)
Definition demoValues : gmap string JSValue :=
  list_to_map [ ("ORDER_ATOMIC", JSNumber (Num 0)); ("ORDER_NONE", JSNumber (Num 99)) ].

Definition demoCallOn : string -> Block -> M Translation -> M Translation :=
  fun _ _ _ => throw (TypeError "the block is no generator").

Definition demo : Generator :=
  mkGenerator "Demo" "generated_function" demoRules demoInit
    (fun code => ret code) None (scrub_spec (fun text => text))
    demoValues demoCallOn.

Definition leaf (t : string) : Block := mkBlock t false true EmptyString [] None.

Definition stmt (t : string) (dis : bool) (next : option Block) : Block :=
  mkBlock t dis false EmptyString [] (Some next).

(** hello, then the disabled skip, then world *)
Definition worldB : Block := stmt "world" false None.
Definition skipB : Block := stmt "skip" true (Some worldB).
Definition helloB : Block := stmt "hello" false (Some skipB).

(** x * (a + b) *)
Definition addB : Block :=
  mkBlock "add" false true EmptyString [("A", leaf "a"); ("B", leaf "b")] None.
Definition mulB : Block :=
  mkBlock "mul" false true EmptyString [("A", leaf "x"); ("B", addB)] None.

(** x * (y, z), the inner block at the sentinel order 99 *)
Definition mulPairB : Block :=
  mkBlock "mul" false true EmptyString [("A", leaf "x"); ("B", leaf "pair")] None.

(** x times a block of order 4 whose code is the empty string *)
Definition mulBlankB : Block :=
  mkBlock "mul" false true EmptyString [("A", leaf "x"); ("B", leaf "blank")] None.

(** a multiplication whose input A is disabled *)
Definition mulDisabledB : Block :=
  mkBlock "mul" false true EmptyString [("A", mkBlock "a" true true EmptyString [] None)] None.

(** a statement block plugged as the value A, and a value block plugged as
    the statements DO *)
Definition mulStmtB : Block :=
  mkBlock "mul" false true EmptyString [("A", stmt "bare" false None)] None.
Definition loopValueB : Block :=
  mkBlock "loop" false false EmptyString [("DO", addB)] (Some None).

(** a loop around the chain, and a block whose code is ragged *)
Definition loopB : Block :=
  mkBlock "loop" false false EmptyString [("DO", helloB)] (Some None).
Definition raggedB : Block := stmt "ragged" false None.

End Demo.

(** The same binding with a value block whose order is NaN and a block
    whose rule throws. *)
Module Demo2.
Import Demo.

Definition demo2 : Generator :=
  mkGenerator "Demo" "generated_function"
    (<["nan" := valueRule "q" NaN]>
       (<["boom" := (fun _ _ => throw (Thrown "boom")) : Rule]> demoRules))
    demoInit (fun code => ret code) None (scrub_spec (fun text => text))
    demoValues demoCallOn.

Definition mulNanB : Block :=
  mkBlock "mul" false true EmptyString [("A", leaf "nan")] None.
Definition mulBoomB : Block :=
  mkBlock "mul" false true EmptyString [("A", leaf "boom")] None.
Definition loopBoomB : Block :=
  mkBlock "loop" false false EmptyString [("DO", stmt "boom" false None)] (Some None).

(** two disabled blocks in a row, then world; and a chain that is disabled
    to its end, the last block of a type without rule *)
Definition skipSkipB : Block := stmt "skip" true (Some skipB).
Definition deadB : Block := stmt "skip" true (Some (stmt "nope" true None)).

(** a generator in which the binding has stored a definition itself *)
Definition stVars : GenState :=
  mkState EmptyString {[ "variables" := "var x;" ]} ∅ (∅ : gset string).

Definition commented (text : string) : Block :=
  mkBlock "hello" false false text [] (Some None).

Definition metrics0 : ScrollbarPair.Metrics :=
  ScrollbarPair.mkMetrics (Num 300) (Num 400) (Num 600) (Num 800)
    (Num 0) (Num 0) (Num 0) (Num 0) (Num 10) (Num 20).
Definition metrics1 : ScrollbarPair.Metrics :=
  ScrollbarPair.mkMetrics (Num 300) (Num 400) (Num 600) (Num 900)
    (Num 0) (Num 50) (Num 0) (Num 0) (Num 10) (Num 20).

End Demo2.

(** * Properties *)

Section Properties.
Context `{NameDatabase}.

Notation "x <- m ;; k" := (bind m (fun x => k))
  (at level 100, m at next level, right associativity).

(** ** The monad *)

Lemma bind_Ok {A B : Type} (m : M A) (k : A -> M B) st a st' :
  m st = (Ok a, st') -> bind m k st = k a st'.
Proof. intros Hm. unfold bind. now rewrite Hm. Qed.

Lemma bind_Throw {A B : Type} (m : M A) (k : A -> M B) st e st' :
  m st = (Throw e, st') -> bind m k st = (Throw e, st').
Proof. intros Hm. unfold bind. now rewrite Hm. Qed.

(** ** The generator methods as the source writes them *)

Lemma lookupInput_map {A B : Type} (f : A -> B) name (l : list (string * A)) :
  lookupInput name (map (fun p => (p.1, f p.2)) l) = f <$> lookupInput name l.
Proof.
  induction l as [|[n a] l IH]; simpl; [reflexivity|].
  destruct (String.eqb n name); [reflexivity|exact IH].
Qed.

Lemma targets_eq g block name :
  targets g block name
  = (fun t => (t, blockToCode g (Some t))) <$> getInputTargetBlock block name.
Proof.
  unfold targets, getInputTargetBlock.
  exact (lookupInput_map (fun t => (t, blockToCode_at g t)) name (inputs block)).
Qed.

(** [blockToCode] on a block, as in the source. *)
Lemma blockToCode_eq g block :
  blockToCode g (Some block) =
  if disabled block then blockToCode g (nextBlock block)
  else
    match rules g !! type block with
    | None => withoutRule g block (blockToCode g (nextBlock block))
    | Some func =>
        code <- func block (mkMethods (valueToCode g block) (statementToCode g block)) ;;
        match code with
        | Tuple c order =>
            c' <- scrub_ g block c (blockToCode g (nextBlock block)) ;; ret (Tuple c' order)
        | Str c =>
            c' <- scrub_ g block c (blockToCode g (nextBlock block)) ;; ret (Str c')
        end
    end.
Proof.
  destruct block as [ty dis out cmt ins [[nb|]|]]; simpl; reflexivity.
Qed.

(** [valueToCode], as in the source. *)
Lemma valueToCode_eq g block name order :
  valueToCode g block name order =
  if isNaN order then
    throw (Thrown ("Expecting valid order from block " +:+ dq +:+ type block +:+ dq +:+ "."))
  else
    match getInputTargetBlock block name with
    | None => ret EmptyString
    | Some targetBlock =>
        tuple <- blockToCode g (Some targetBlock) ;;
        match tuple with
        | Str EmptyString => ret EmptyString
        | Str (String _ _) =>
            throw (Thrown ("Expecting tuple from value block " +:+ dq
                           +:+ type targetBlock +:+ dq +:+ "."))
        | Tuple code innerOrder =>
            if isNaN innerOrder then
              throw (Thrown ("Expecting valid order from value block " +:+ dq
                             +:+ type targetBlock +:+ dq +:+ "."))
            else if nonEmpty code && num_le order innerOrder then
              if num_eq order innerOrder
                 || (num_eq order (Num 0) || num_eq order (Num 99))
              then ret code
              else ret ("(" +:+ code +:+ ")")
            else ret code
        end
    end.
Proof.
  unfold valueToCode, valueToCode_in. rewrite targets_eq.
  destruct (getInputTargetBlock block name); reflexivity.
Qed.

(** [statementToCode], as in the source. *)
Lemma statementToCode_eq g block name :
  statementToCode g block name =
  let targetBlock := getInputTargetBlock block name in
  code <- blockToCode g targetBlock ;;
  if statementGuard (js_of code) then
    match targetBlock with
    | Some t =>
        throw (Thrown ("Expecting code from statement block " +:+ dq
                       +:+ type t +:+ dq +:+ "."))
    | None => throw (TypeError "targetBlock is null")
    end
  else
    match code with
    | Str s => if nonEmpty s then ret (prefixLines s "  ") else ret s
    | Tuple _ _ => throw (TypeError "text.replace is not a function")
    end.
Proof.
  unfold statementToCode, statementToCode_in. rewrite targets_eq.
  destruct (getInputTargetBlock block name); reflexivity.
Qed.

(** ** [valueToCode] *)

(** What [valueToCode] returns once the connected block has been translated
    to the tuple [[s, innerOrder]]. *)
Lemma valueToCode_Tuple g block name target s innerOrder (maxOrder : Z) st st' :
  getInputTargetBlock block name = Some target ->
  blockToCode g (Some target) st = (Ok (Tuple s innerOrder), st') ->
  valueToCode g block name (Num maxOrder) st =
  match innerOrder with
  | NaN =>
      (Throw (Thrown ("Expecting valid order from value block " +:+ dq
                      +:+ type target +:+ dq +:+ ".")), st')
  | Num n =>
      (Ok (if nonEmpty s && (maxOrder <=? n)
              && negb ((maxOrder =? n) || ((maxOrder =? 0) || (maxOrder =? 99)))
           then "(" +:+ s +:+ ")" else s), st')
  end.
Proof.
  intros Htarget Hcode. rewrite valueToCode_eq. cbn [isNaN]. rewrite Htarget.
  rewrite (bind_Ok _ _ _ _ _ Hcode).
  destruct innerOrder as [|n]; cbn [isNaN num_le num_eq]; [reflexivity|].
  destruct (nonEmpty s && (maxOrder <=? n)); cbn [andb]; [|reflexivity].
  destruct ((maxOrder =? n) || ((maxOrder =? 0) || (maxOrder =? 99))); reflexivity.
Qed.

(** C1 (as amended): when the block connected at the named input translates
    to the code [s] with the order [n], [valueToCode] returns [s] in
    parentheses exactly when [s] is not empty, [maxOrder <= n], the two
    orders differ and [maxOrder] is neither 0 nor 99, and returns [s] as it
    is otherwise; with [n = maxOrder] there are never parentheses. *)
Theorem valueToCode_parentheses g block name target s (n maxOrder : Z) st st' :
  getInputTargetBlock block name = Some target ->
  blockToCode g (Some target) st = (Ok (Tuple s (Num n)), st') ->
  valueToCode g block name (Num maxOrder) st
  = (Ok (if nonEmpty s && (maxOrder <=? n) && negb (n =? maxOrder)
            && negb (isSentinel maxOrder)
         then "(" +:+ s +:+ ")" else s), st')
  /\ (n = maxOrder -> valueToCode g block name (Num maxOrder) st = (Ok s, st')).
Proof.
  intros Htarget Hcode.
  rewrite (valueToCode_Tuple _ _ _ _ _ _ _ _ _ Htarget Hcode).
  unfold isSentinel. rewrite (Z.eqb_sym n maxOrder). split.
  - destruct (nonEmpty s), (maxOrder <=? n), (maxOrder =? n),
      ((maxOrder =? 0) || (maxOrder =? 99)); reflexivity.
  - intros ->. rewrite Z.eqb_refl. cbn [orb negb]. now rewrite andb_false_r.
Qed.

(** C2 (as amended): a connected block that translates to a non-empty code
    [s] with an order above [maxOrder] comes back in exactly one pair of
    parentheses, provided [maxOrder] is neither 0 nor 99. *)
Theorem valueToCode_weaker_order g block name target s (n maxOrder : Z) st st' :
  getInputTargetBlock block name = Some target ->
  blockToCode g (Some target) st = (Ok (Tuple s (Num n)), st') ->
  nonEmpty s = true -> maxOrder < n -> maxOrder <> 0 -> maxOrder <> 99 ->
  valueToCode g block name (Num maxOrder) st = (Ok ("(" +:+ s +:+ ")"), st').
Proof.
  intros Htarget Hcode Hs Hlt H0 H99.
  rewrite (valueToCode_Tuple _ _ _ _ _ _ _ _ _ Htarget Hcode), Hs.
  replace (maxOrder <=? n) with true by (symmetry; apply Z.leb_le; lia).
  replace (maxOrder =? n) with false by (symmetry; apply Z.eqb_neq; lia).
  replace (maxOrder =? 0) with false by (symmetry; now apply Z.eqb_neq).
  replace (maxOrder =? 99) with false by (symmetry; now apply Z.eqb_neq).
  reflexivity.
Qed.

(** C7: with a valid order [maxOrder], [valueToCode] returns the empty
    string when nothing is connected at the named input, and when the
    connected block is disabled, that is when its translation came back as
    the empty string; it throws an error that names the type of the
    connected block when the translation is a non-empty plain string. *)
Theorem valueToCode_empty_or_fails g block name (maxOrder : Z) st :
  (getInputTargetBlock block name = None ->
     valueToCode g block name (Num maxOrder) st = (Ok EmptyString, st))
  /\ (forall target st',
        getInputTargetBlock block name = Some target ->
        blockToCode g (Some target) st = (Ok (Str EmptyString), st') ->
        valueToCode g block name (Num maxOrder) st = (Ok EmptyString, st'))
  /\ (forall target,
        getInputTargetBlock block name = Some target ->
        disabled target = true -> nextBlock target = None ->
        valueToCode g block name (Num maxOrder) st = (Ok EmptyString, st))
  /\ (forall target s st',
        getInputTargetBlock block name = Some target ->
        blockToCode g (Some target) st = (Ok (Str s), st') ->
        nonEmpty s = true ->
        valueToCode g block name (Num maxOrder) st
        = (Throw (Thrown ("Expecting tuple from value block " +:+ dq
                          +:+ type target +:+ dq +:+ ".")), st')).
Proof.
  rewrite valueToCode_eq. cbn [isNaN]. repeat split.
  - intros ->. reflexivity.
  - intros target st' -> Hcode. now rewrite (bind_Ok _ _ _ _ _ Hcode).
  - intros target -> Hdis Hnext.
    assert (Hcode : blockToCode g (Some target) st = (Ok (Str EmptyString), st)).
    { rewrite blockToCode_eq, Hdis, Hnext. reflexivity. }
    now rewrite (bind_Ok _ _ _ _ _ Hcode).
  - intros target s st' -> Hcode Hs. rewrite (bind_Ok _ _ _ _ _ Hcode).
    destruct s; [discriminate|reflexivity].
Qed.

(** ** [blockToCode] *)


(** C3: with [scrub_] as the specification describes it, a disabled block
    translates to what its next block translates to, and to the empty
    string when it has none; and in a chain A, B, C where B is disabled,
    [blockToCode] of A is the own code of A followed by the code of C. *)
Theorem blockToCode_disabled_transparent g comment :
  scrub_ g = scrub_spec comment ->
  (forall D, disabled D = true -> blockToCode g (Some D) = blockToCode g (nextBlock D))
  /\ (forall D, disabled D = true -> nextBlock D = None ->
       blockToCode g (Some D) = ret (Str EmptyString))
  /\ (forall A B C (func : Rule) st a st1 c st2,
        disabled A = false -> nextBlock A = Some B ->
        disabled B = true -> nextBlock B = Some C ->
        rules g !! type A = Some func ->
        func A (mkMethods (valueToCode g A) (statementToCode g A)) st = (Ok (Str a), st1) ->
        blockToCode g (Some C) st1 = (Ok (Str c), st2) ->
        blockToCode g (Some A) st
        = (Ok (Str (a +:+ comment (commentText A) +:+ c)), st2)).
Proof.
  intros Hscrub. repeat split.
  - intros D HD. now rewrite blockToCode_eq, HD.
  - intros D HD Hnext. now rewrite blockToCode_eq, HD, Hnext.
  - intros A B C func st a st1 c st2 HA HAB HB HBC Hfunc Ha Hc.
    rewrite blockToCode_eq, HA. unfold Rule in *. rewrite Hfunc, HAB.
    rewrite (bind_Ok _ _ _ _ _ Ha), Hscrub. unfold scrub_spec.
    assert (HBcode : blockToCode g (Some B) st1 = (Ok (Str c), st2)).
    { now rewrite blockToCode_eq, HB, HBC. }
    unfold bind at 1. unfold bind at 1. now rewrite HBcode.
Qed.

(** ** [statementToCode] *)

Lemma statementGuard_false (code : JSValue) : statementGuard code = false.
Proof. destruct code; reflexivity. Qed.

(** C9: the guard of [statementToCode] never fires: its condition is false
    for every value of [code], so [statementToCode] goes on to [prefixLines]
    whatever the translation is; on a tuple that call fails with a
    TypeError, and the error of the guard is not the one thrown. *)
Theorem statementToCode_guard_unreachable :
  (forall code : JSValue, statementGuard code = false)
  /\ (forall g block name st,
       statementToCode g block name st
       = (code <- blockToCode g (getInputTargetBlock block name) ;;
          match code with
          | Str s => if nonEmpty s then ret (prefixLines s "  ") else ret s
          | Tuple _ _ => throw (TypeError "text.replace is not a function")
          end) st).
Proof.
  split; [exact statementGuard_false|].
  intros g block name st. rewrite statementToCode_eq. cbv zeta. unfold bind.
  destruct (blockToCode g (getInputTargetBlock block name) st) as [[code|e] st'];
    [|reflexivity].
  now rewrite statementGuard_false.
Qed.

(** ** [provideFunction_] *)

(** A call on a name whose stored definition text is truthy. *)
Lemma provideFunction__stored g desiredName code st :
  truthyText (definitions_ st !! desiredName) = true ->
  provideFunction_ g desiredName code st = (Ok (functionNames_ st !! desiredName), st).
Proof. intros Htext. unfold provideFunction_. now rewrite Htext. Qed.

(** A call on a name whose stored definition text is missing or empty. *)
Lemma provideFunction__allocates g desiredName code st :
  truthyText (definitions_ st !! desiredName) = false ->
  provideFunction_ g desiredName code st
  = let functionName := getDistinctName (variableDB_ st) desiredName (NAME_TYPE g) in
    (Ok (Some functionName.1),
     mkState (RESERVED_WORDS_ st)
       (<[desiredName :=
            replaceAll FUNCTION_NAME_PLACEHOLDER_REGEXP_ functionName.1 (join nl code)]>
          (definitions_ st))
       (<[desiredName := functionName.1]> (functionNames_ st))
       functionName.2).
Proof.
  intros Htext. unfold provideFunction_. rewrite Htext. cbn [negb functionNames_].
  now rewrite lookup_insert_eq.
Qed.

(** C10: the memoization of [provideFunction_] looks at the truthiness of
    the stored definition text. After a first call for a name, a repeat call
    returns the stored name and leaves the generator, its name database
    included, as it is when the stored text is not empty; when the stored
    text is empty, the repeat call asks the name database again, returns a
    name different from the first one, and overwrites both entries. *)
Theorem provideFunction__keyed_on_truthiness g desiredName code1 code2 st :
  truthyText (definitions_ st !! desiredName) = false ->
  let first := provideFunction_ g desiredName code1 st in
  let second := provideFunction_ g desiredName code2 first.2 in
  let name1 := getDistinctName (variableDB_ st) desiredName (NAME_TYPE g) in
  let name2 := getDistinctName (variableDB_ first.2) desiredName (NAME_TYPE g) in
  first.1 = Ok (Some name1.1)
  /\ (forall text, definitions_ first.2 !! desiredName = Some text ->
       nonEmpty text = true ->
       second = (Ok (Some name1.1), first.2))
  /\ (definitions_ first.2 !! desiredName = Some EmptyString ->
       second.1 = Ok (Some name2.1)
       /\ name2.1 <> name1.1
       /\ variableDB_ second.2 = name2.2
       /\ functionNames_ second.2 !! desiredName = Some name2.1
       /\ definitions_ second.2 !! desiredName
          = Some (replaceAll FUNCTION_NAME_PLACEHOLDER_REGEXP_ name2.1 (join nl code2))).
Proof.
  intros Hfalsy first second name1 name2.
  assert (Hfirst : first
    = (Ok (Some name1.1),
       mkState (RESERVED_WORDS_ st)
         (<[desiredName :=
              replaceAll FUNCTION_NAME_PLACEHOLDER_REGEXP_ name1.1 (join nl code1)]>
            (definitions_ st))
         (<[desiredName := name1.1]> (functionNames_ st))
         name1.2)).
  { exact (provideFunction__allocates g desiredName code1 st Hfalsy). }
  split; [now rewrite Hfirst|]. split.
  - intros text Htext Hne. unfold second.
    rewrite provideFunction__stored by (now rewrite Htext).
    rewrite Hfirst. cbn [snd functionNames_]. now rewrite lookup_insert_eq.
  - intros Hempty.
    assert (Hsecond : second = _) by
      (apply provideFunction__allocates; now rewrite Hempty).
    rewrite Hsecond. cbn [fst snd variableDB_ functionNames_ definitions_].
    rewrite !lookup_insert_eq. repeat split.
    intros Heq.
    apply (getDistinctName_fresh (variableDB_ first.2) desiredName (NAME_TYPE g)).
    fold name2. rewrite Heq, Hfirst. cbn [snd variableDB_]. unfold name1.
    rewrite getDistinctName_taken. set_solver.
Qed.

(** ** [prefixLines] *)

Lemma append_cons (c : ascii) (s t : string) : String c s +:+ t = String c (s +:+ t).
Proof. reflexivity. Qed.

Lemma append_nil_r (s : string) : s +:+ EmptyString = s.
Proof.
  induction s as [|c s IH]; [reflexivity|].
  rewrite append_cons. f_equal. exact IH.
Qed.

Lemma append_assoc (a b c : string) : (a +:+ b) +:+ c = a +:+ (b +:+ c).
Proof.
  induction a as [|x a IH]; [reflexivity|].
  rewrite !append_cons. f_equal. exact IH.
Qed.

(** A template without dollar sign expands to itself. *)
Lemma GetSubstitution_noDollar m before after caps t rest :
  noDollar t = true ->
  GetSubstitution m before after caps (t +:+ rest)
  = t +:+ GetSubstitution m before after caps rest.
Proof.
  induction t as [|c t IH]; intros Ht; [reflexivity|].
  simpl in Ht. apply andb_true_iff in Ht as [Hc Ht].
  change (String c t +:+ rest) with (String c (t +:+ rest)).
  cbn [GetSubstitution]. rewrite Hc, (IH Ht). reflexivity.
Qed.

Lemma GetSubstitution_literal m before after caps t :
  noDollar t = true -> GetSubstitution m before after caps t = t.
Proof.
  intros Ht. rewrite <- (append_nil_r t) at 1.
  rewrite GetSubstitution_noDollar by exact Ht. apply append_nil_r.
Qed.

(** The template of [prefixLines] on a match of [/\n(.)/]. *)
Lemma GetSubstitution_prefix m before after d prefix :
  noDollar prefix = true ->
  GetSubstitution m before after [String d EmptyString] (nl +:+ prefix +:+ "$1")
  = String LF (prefix +:+ String d EmptyString).
Proof.
  intros Hp. change (nl +:+ prefix +:+ "$1") with (String LF (prefix +:+ "$1")).
  cbn [GetSubstitution]. change (negb (Ascii.eqb LF DOLLAR)) with true. cbv iota.
  rewrite GetSubstitution_noDollar by exact Hp. reflexivity.
Qed.

Lemma replaceAll_from_step re template before c s :
  replaceAll_from re template before O (String c s)
  = match re (String c s) with
    | Some r =>
        GetSubstitution (matched r) before
          (dropn (String.length (matched r)) (String c s)) (captures r) template
        +:+ replaceAll_from re template (snoc before c) (String.length (matched r) - 1) s
    | None => String c (replaceAll_from re template (snoc before c) O s)
    end.
Proof. reflexivity. Qed.

Lemma replaceAll_from_skip re template before k c s :
  replaceAll_from re template before (S k) (String c s)
  = replaceAll_from re template (snoc before c) k s.
Proof. reflexivity. Qed.

Lemma replaceAll_prefix prefix :
  noDollar prefix = true ->
  forall n text before, (String.length text <= n)%nat ->
  replaceAll_from re_nl_char (nl +:+ prefix +:+ "$1") before O text
  = prefixContentLines prefix text.
Proof.
  intros Hp. induction n as [|n IH]; intros text before Hlen.
  - destruct text; [reflexivity|simpl in Hlen; lia].
  - destruct text as [|c [|d rest]]; [reflexivity|reflexivity|].
    cbn [String.length] in Hlen.
    rewrite replaceAll_from_step. cbn [re_nl_char prefixContentLines].
    destruct (isNL c && negb (isLineTerminator d)) eqn:Hm.
    + apply andb_true_iff in Hm as [Hc Hd].
      apply Ascii.eqb_eq in Hc. subst c.
      cbn [matched captures String.length Nat.sub].
      rewrite replaceAll_from_skip.
      rewrite GetSubstitution_prefix by exact Hp.
      rewrite (IH rest) by lia.
      assert (HdNL : isNL d = false).
      { unfold isLineTerminator in Hd. unfold isNL.
        destruct (Ascii.eqb d LF); [discriminate|reflexivity]. }
      change (String LF (prefix +:+ String d EmptyString) +:+ prefixContentLines prefix rest)
        with (String LF ((prefix +:+ String d EmptyString) +:+ prefixContentLines prefix rest)).
      rewrite append_assoc. f_equal. f_equal.
      destruct rest as [|e rest']; [reflexivity|].
      cbn [prefixContentLines append]. now rewrite HdNL.
    + f_equal. apply IH. cbn [String.length]. lia.
Qed.

Lemma prefixContentLines_spec prefix text :
  noEmptyLine text = true ->
  prefixContentLines prefix text = prefixAfterNewlines prefix text.
Proof.
  induction text as [|c rest IH]; intros Hne; [reflexivity|].
  destruct rest as [|d rest'].
  - cbn. now rewrite andb_false_r.
  - change (noEmptyLine (String c (String d rest')))
      with (negb (isNL c && isLineTerminator d) && noEmptyLine (String d rest')) in Hne.
    apply andb_true_iff in Hne as [Hcd Hrest].
    change (prefixContentLines prefix (String c (String d rest')))
      with (if isNL c && negb (isLineTerminator d)
            then String c (prefix +:+ prefixContentLines prefix (String d rest'))
            else String c (prefixContentLines prefix (String d rest'))).
    change (prefixAfterNewlines prefix (String c (String d rest')))
      with (if isNL c && true
            then String c (prefix +:+ prefixAfterNewlines prefix (String d rest'))
            else String c (prefixAfterNewlines prefix (String d rest'))).
    rewrite andb_true_r, (IH Hrest).
    destruct (isNL c); [|reflexivity].
    cbn [andb] in *. now rewrite Hcd.
Qed.

(** C8 (as amended): for a prefix without dollar sign, [prefixLines] puts
    the prefix in front of the text and after every newline that is
    followed by a code unit other than a line terminator; on a text
    without empty lines that is the prefix in front of the first line and
    of every line that follows an embedded newline. It is a function of its
    two arguments alone. *)
Theorem prefixLines_prefixes text prefix :
  noDollar prefix = true ->
  prefixLines text prefix = prefix +:+ prefixContentLines prefix text
  /\ (noEmptyLine text = true -> prefixLines text prefix = prefixLines_spec text prefix).
Proof.
  intros Hp.
  assert (Hcode : prefixLines text prefix = prefix +:+ prefixContentLines prefix text).
  { unfold prefixLines, replaceAll. f_equal.
    now apply (replaceAll_prefix prefix Hp (String.length text)). }
  split; [exact Hcode|].
  intros Hne. rewrite Hcode. unfold prefixLines_spec.
  now rewrite prefixContentLines_spec.
Qed.

(** ** The scrubbing of whitespace *)

Lemma isBlank_isSpace c : isBlank c = true -> isSpace c = true.
Proof.
  unfold isBlank. intros Hc. apply orb_true_iff in Hc as [Hc|Hc];
    apply Ascii.eqb_eq in Hc; subst c; reflexivity.
Qed.

Lemma isNL_isSpace c : isNL c = true -> isSpace c = true.
Proof. unfold isNL. intros Hc. apply Ascii.eqb_eq in Hc. subst c. reflexivity. Qed.

Lemma isNL_not_blank c : isNL c = true -> isBlank c = false.
Proof. unfold isNL. intros Hc. apply Ascii.eqb_eq in Hc. subst c. reflexivity. Qed.

Lemma isNL_LF c : isNL c = true -> c = LF.
Proof. unfold isNL. intros Hc. now apply Ascii.eqb_eq in Hc. Qed.

Lemma leadNL_cons c s : leadNL (String c s) = isSpace c && (leadNL s || isNL c).
Proof.
  unfold leadNL. cbn [match_spaces_nl].
  destruct (isSpace c), (match_spaces_nl s), (isNL c); reflexivity.
Qed.

Lemma blankHead_cons c s : blankHead (String c s) = isSpace c && leadNL s.
Proof.
  unfold blankHead, leadNL, re_leading_blank.
  destruct (isSpace c), (match_spaces_nl s); reflexivity.
Qed.

Lemma blankTail_cons c s :
  blankTail (String c s) = (isNL c && nonEmpty s && allSpace s) || blankTail s.
Proof. reflexivity. Qed.

Lemma blankBeforeNewline_cons c s :
  blankBeforeNewline (String c s) = (isBlank c && startsWithNL s) || blankBeforeNewline s.
Proof. destruct s; [cbn; now rewrite andb_false_r|reflexivity]. Qed.

Lemma stripTail_cons c s :
  stripTail (String c s)
  = if isNL c && nonEmpty s && allSpace s then nl else String c (stripTail s).
Proof. reflexivity. Qed.

Lemma stripBlanks_cons c s :
  stripBlanks (String c s)
  = if isBlank c && blanksThenNL s then stripBlanks s else String c (stripBlanks s).
Proof. reflexivity. Qed.

Lemma blanksThenNL_cons c s :
  blanksThenNL (String c s) = if isBlank c then blanksThenNL s else isNL c.
Proof.
  unfold blanksThenNL. cbn [match_blanks_nl].
  destruct (isBlank c), (match_blanks_nl s), (isNL c); reflexivity.
Qed.

Lemma dropn_length_le k s : (String.length (dropn k s) <= String.length s)%nat.
Proof.
  revert s. induction k as [|k IH]; intros [|c s]; cbn [dropn String.length]; try lia.
  specialize (IH s). lia.
Qed.

Lemma dropn_all s : dropn (String.length s) s = EmptyString.
Proof. induction s as [|c s IH]; [reflexivity|exact IH]. Qed.

(** *** The replacements are the recursions *)

Lemma replaceAll_from_before re template :
  noDollar template = true ->
  forall s k before1 before2,
  replaceAll_from re template before1 k s = replaceAll_from re template before2 k s.
Proof.
  intros Ht. induction s as [|c s IH]; intros k before1 before2; [reflexivity|].
  destruct k as [|k].
  - rewrite !replaceAll_from_step. destruct (re (String c s)) as [r|].
    + rewrite !GetSubstitution_literal by exact Ht. f_equal. apply IH.
    + f_equal. apply IH.
  - rewrite !replaceAll_from_skip. apply IH.
Qed.

Lemma replaceAll_from_dropn re template :
  noDollar template = true ->
  forall k s before,
  replaceAll_from re template before k s
  = replaceAll_from re template EmptyString O (dropn k s).
Proof.
  intros Ht. induction k as [|k IH]; intros s before.
  - apply replaceAll_from_before, Ht.
  - destruct s as [|c s]; [reflexivity|].
    rewrite replaceAll_from_skip. apply IH.
Qed.

Lemma stripBlanks_match s r :
  match_blanks_nl s = Some r ->
  stripBlanks s = String LF (stripBlanks (dropn (String.length r) s)).
Proof.
  revert r. induction s as [|c s IH]; intros r Hr; [discriminate|].
  cbn [match_blanks_nl] in Hr. rewrite stripBlanks_cons.
  destruct (isBlank c) eqn:Hc.
  - destruct (match_blanks_nl s) as [r'|] eqn:Hs; [|discriminate].
    injection Hr as <-. unfold blanksThenNL. rewrite Hs. cbn [andb].
    now apply IH.
  - destruct (isNL c) eqn:Hn; [|discriminate].
    injection Hr as <-. cbn [andb String.length dropn].
    now rewrite (isNL_LF _ Hn).
Qed.

Lemma replaceAll_blanks n :
  forall s, (String.length s <= n)%nat ->
  replaceAll_from re_blanks_nl nl EmptyString O s = stripBlanks s.
Proof.
  induction n as [|n IH]; intros s Hlen.
  - destruct s; [reflexivity|simpl in Hlen; lia].
  - destruct s as [|c s]; [reflexivity|]. cbn [String.length] in Hlen.
    rewrite replaceAll_from_step, stripBlanks_cons. cbn [re_blanks_nl].
    unfold blanksThenNL.
    destruct (isBlank c); [destruct (match_blanks_nl s) as [r|] eqn:Hs|]; cbn [andb].
    + cbn [matched captures].
      replace (String.length (String c r) - 1)%nat with (String.length r)
        by (cbn [String.length]; lia).
      rewrite GetSubstitution_literal by reflexivity.
      rewrite replaceAll_from_dropn by reflexivity.
      rewrite IH by (pose proof (dropn_length_le (String.length r) s); lia).
      now rewrite (stripBlanks_match s r Hs).
    + f_equal. rewrite replaceAll_from_before with (before2 := EmptyString) by reflexivity.
      apply IH. lia.
    + f_equal. rewrite replaceAll_from_before with (before2 := EmptyString) by reflexivity.
      apply IH. lia.
Qed.

Lemma replaceFirst_trailing s :
  forall before, replaceFirst_from re_trailing_blank nl before s = stripTail s.
Proof.
  induction s as [|c s IH]; intros before; [reflexivity|].
  rewrite stripTail_cons. cbn [replaceFirst_from re_trailing_blank].
  destruct (isNL c && nonEmpty s && allSpace s).
  - cbn [matched captures]. rewrite GetSubstitution_literal by reflexivity.
    rewrite dropn_all. apply append_nil_r.
  - f_equal. apply IH.
Qed.

Lemma scrubWhitespace_eq code :
  scrubWhitespace code
  = stripBlanks (stripTail (replaceAtStart re_leading_blank EmptyString code)).
Proof.
  unfold scrubWhitespace, replaceAll, replaceFirst.
  rewrite replaceFirst_trailing. now apply (replaceAll_blanks _ _ (Nat.le_refl _)).
Qed.

(** *** The head of the text *)

Lemma match_spaces_nl_greedy s m :
  match_spaces_nl s = Some m -> leadNL (dropn (String.length m) s) = false.
Proof.
  revert m. induction s as [|c s IH]; intros m Hm; [discriminate|].
  cbn [match_spaces_nl] in Hm. destruct (isSpace c); [|discriminate].
  destruct (match_spaces_nl s) as [m'|] eqn:Hs.
  - injection Hm as <-. cbn [String.length dropn]. now apply IH.
  - destruct (isNL c); [|discriminate]. injection Hm as <-.
    cbn [String.length dropn]. unfold leadNL. now rewrite Hs.
Qed.

Lemma leadNL_blankHead s : leadNL s = false -> blankHead s = false.
Proof.
  destruct s as [|c s]; [reflexivity|].
  rewrite leadNL_cons, blankHead_cons.
  destruct (isSpace c), (leadNL s); cbn; congruence.
Qed.

Lemma blankHead_replaceAtStart s :
  blankHead (replaceAtStart re_leading_blank EmptyString s) = false.
Proof.
  unfold replaceAtStart. destruct (re_leading_blank s) as [r|] eqn:Hr.
  - cbn [GetSubstitution]. change (EmptyString +:+ ?x) with x.
    apply leadNL_blankHead.
    destruct s as [|c s]; [discriminate|]. cbn [re_leading_blank] in Hr.
    destruct (isSpace c); [|discriminate].
    destruct (match_spaces_nl s) as [m|] eqn:Hs; [|discriminate].
    injection Hr as <-. cbn [matched String.length dropn].
    now apply match_spaces_nl_greedy.
  - unfold blankHead. now rewrite Hr.
Qed.

Lemma leadNL_stripTail s : leadNL (stripTail s) = true -> leadNL s = true.
Proof.
  induction s as [|c s IH]; [discriminate|].
  rewrite stripTail_cons, (leadNL_cons c s).
  destruct (isNL c && nonEmpty s && allSpace s) eqn:Ht.
  - intros _. apply andb_true_iff in Ht as [Ht _]. apply andb_true_iff in Ht as [Hc _].
    now rewrite Hc, (isNL_isSpace _ Hc), orb_true_r.
  - rewrite leadNL_cons. destruct (isSpace c); cbn [andb]; [|congruence].
    destruct (isNL c); rewrite ?orb_true_r, ?orb_false_r; auto.
Qed.

Lemma blankHead_stripTail s : blankHead s = false -> blankHead (stripTail s) = false.
Proof.
  destruct s as [|c s]; [reflexivity|].
  rewrite stripTail_cons, (blankHead_cons c s).
  destruct (isNL c && nonEmpty s && allSpace s); [reflexivity|].
  rewrite blankHead_cons. destruct (isSpace c); [|reflexivity]. cbn [andb].
  intros Hs. destruct (leadNL (stripTail s)) eqn:Ht; [|reflexivity].
  now rewrite (leadNL_stripTail s Ht) in Hs.
Qed.

Lemma blanksThenNL_leadNL s : blanksThenNL s = true -> leadNL s = true.
Proof.
  induction s as [|c s IH]; [discriminate|].
  rewrite blanksThenNL_cons, leadNL_cons. destruct (isBlank c) eqn:Hc.
  - intros Hs. now rewrite (isBlank_isSpace _ Hc), (IH Hs).
  - intros Hn. now rewrite Hn, (isNL_isSpace _ Hn), orb_true_r.
Qed.

Lemma leadNL_stripBlanks s : leadNL (stripBlanks s) = true -> leadNL s = true.
Proof.
  induction s as [|c s IH]; [discriminate|].
  rewrite stripBlanks_cons, (leadNL_cons c s).
  destruct (isBlank c && blanksThenNL s) eqn:Hd.
  - intros Hs. apply andb_true_iff in Hd as [Hc _].
    now rewrite (isBlank_isSpace _ Hc), (IH Hs).
  - rewrite leadNL_cons. destruct (isSpace c); cbn [andb]; [|congruence].
    destruct (isNL c); rewrite ?orb_true_r, ?orb_false_r; auto.
Qed.

Lemma blankHead_stripBlanks s : blankHead s = false -> blankHead (stripBlanks s) = false.
Proof.
  destruct s as [|c s]; [reflexivity|].
  rewrite stripBlanks_cons, (blankHead_cons c s).
  destruct (isBlank c && blanksThenNL s) eqn:Hd.
  - apply andb_true_iff in Hd as [Hc Hs].
    now rewrite (isBlank_isSpace _ Hc), (blanksThenNL_leadNL _ Hs).
  - rewrite blankHead_cons. destruct (isSpace c); [|reflexivity]. cbn [andb].
    intros Hs. destruct (leadNL (stripBlanks s)) eqn:Ht; [|reflexivity].
    now rewrite (leadNL_stripBlanks s Ht) in Hs.
Qed.

(** *** The end of the text *)

Lemma nonEmpty_stripTail s : nonEmpty (stripTail s) = nonEmpty s.
Proof.
  destruct s as [|c s]; [reflexivity|]. rewrite stripTail_cons.
  now destruct (isNL c && nonEmpty s && allSpace s).
Qed.

Lemma allSpace_stripTail s : allSpace (stripTail s) = true -> allSpace s = true.
Proof.
  induction s as [|c s IH]; [reflexivity|]. rewrite stripTail_cons.
  destruct (isNL c && nonEmpty s && allSpace s) eqn:Ht.
  - intros _. apply andb_true_iff in Ht as [Ht Hs]. apply andb_true_iff in Ht as [Hc _].
    cbn [allSpace]. now rewrite (isNL_isSpace _ Hc), Hs.
  - cbn [allSpace]. destruct (isSpace c); [|discriminate]. exact IH.
Qed.

Lemma blankTail_stripTail s : blankTail (stripTail s) = false.
Proof.
  induction s as [|c s IH]; [reflexivity|]. rewrite stripTail_cons.
  destruct (isNL c && nonEmpty s && allSpace s) eqn:Ht.
  - reflexivity.
  - rewrite blankTail_cons, IH, orb_false_r, nonEmpty_stripTail.
    destruct (isNL c); [|reflexivity]. destruct (nonEmpty s); [|reflexivity].
    cbn [andb] in *. destruct (allSpace (stripTail s)) eqn:Ha; [|reflexivity].
    now rewrite (allSpace_stripTail s Ha) in Ht.
Qed.

Lemma nonEmpty_stripBlanks s : nonEmpty (stripBlanks s) = true -> nonEmpty s = true.
Proof. now destruct s. Qed.

Lemma allSpace_stripBlanks s : allSpace (stripBlanks s) = true -> allSpace s = true.
Proof.
  induction s as [|c s IH]; [reflexivity|]. rewrite stripBlanks_cons.
  destruct (isBlank c && blanksThenNL s) eqn:Hd.
  - intros Hs. apply andb_true_iff in Hd as [Hc _].
    cbn [allSpace]. now rewrite (isBlank_isSpace _ Hc), (IH Hs).
  - cbn [allSpace]. destruct (isSpace c); [|discriminate]. exact IH.
Qed.

Lemma blankTail_stripBlanks s : blankTail s = false -> blankTail (stripBlanks s) = false.
Proof.
  induction s as [|c s IH]; [reflexivity|].
  rewrite stripBlanks_cons, (blankTail_cons c s). intros Hs.
  apply orb_false_iff in Hs as [Hc Hs].
  destruct (isBlank c && blanksThenNL s); [now apply IH|].
  rewrite blankTail_cons, (IH Hs), orb_false_r.
  destruct (isNL c); [|reflexivity]. cbn [andb] in *.
  destruct (nonEmpty (stripBlanks s)) eqn:Hn; [|reflexivity].
  rewrite (nonEmpty_stripBlanks s Hn) in Hc. cbn [andb] in *.
  destruct (allSpace (stripBlanks s)) eqn:Ha; [|reflexivity].
  now rewrite (allSpace_stripBlanks s Ha) in Hc.
Qed.

Lemma endsWithTwoNewlines_blankTail s : blankTail s = false -> endsWithTwoNewlines s = false.
Proof.
  induction s as [|c s IH]; [reflexivity|].
  rewrite blankTail_cons. intros Hs. apply orb_false_iff in Hs as [Hc Hs].
  destruct s as [|d [|e s]]; [reflexivity| |exact (IH Hs)].
  cbn [endsWithTwoNewlines]. cbn [nonEmpty allSpace] in Hc.
  destruct (isNL c); [|reflexivity]. destruct (isNL d) eqn:Hd; [|reflexivity].
  now rewrite (isNL_isSpace _ Hd) in Hc.
Qed.

(** *** Blanks before a newline *)

Lemma startsWithNL_stripBlanks s :
  blanksThenNL s = false -> startsWithNL (stripBlanks s) = false.
Proof.
  destruct s as [|c s]; [reflexivity|].
  rewrite blanksThenNL_cons, stripBlanks_cons. destruct (isBlank c) eqn:Hc.
  - intros ->. cbn [andb startsWithNL]. destruct (isNL c) eqn:Hn; [|reflexivity].
    now rewrite (isNL_not_blank _ Hn) in Hc.
  - intros Hn. cbn [andb startsWithNL]. exact Hn.
Qed.

Lemma blankBeforeNewline_stripBlanks s : blankBeforeNewline (stripBlanks s) = false.
Proof.
  induction s as [|c s IH]; [reflexivity|]. rewrite stripBlanks_cons.
  destruct (isBlank c) eqn:Hc; [destruct (blanksThenNL s) eqn:Hs|]; cbn [andb].
  - exact IH.
  - now rewrite blankBeforeNewline_cons, IH, (startsWithNL_stripBlanks s Hs), andb_false_r.
  - now rewrite blankBeforeNewline_cons, IH, Hc.
Qed.

(** What [scrubWhitespace] guarantees of its result. *)
Lemma scrubWhitespace_scrubbed code :
  blankBeforeNewline (scrubWhitespace code) = false
  /\ blankTail (scrubWhitespace code) = false
  /\ endsWithTwoNewlines (scrubWhitespace code) = false
  /\ blankHead (scrubWhitespace code) = false.
Proof.
  rewrite scrubWhitespace_eq.
  assert (Htail : blankTail
    (stripBlanks (stripTail (replaceAtStart re_leading_blank EmptyString code))) = false)
    by apply blankTail_stripBlanks, blankTail_stripTail.
  repeat split.
  - apply blankBeforeNewline_stripBlanks.
  - exact Htail.
  - now apply endsWithTwoNewlines_blankTail.
  - apply blankHead_stripBlanks, blankHead_stripTail, blankHead_replaceAtStart.
Qed.

(** The result of [workspaceToCode] has gone through [scrubWhitespace]. *)
Lemma workspaceToCode_Ok g topBlocks st out st' :
  workspaceToCode g topBlocks st = (Ok out, st') ->
  exists code, out = scrubWhitespace code.
Proof.
  unfold workspaceToCode, bind, ret.
  destruct (init g st) as [[[]|e] st1]; [|discriminate].
  destruct (translateTopBlocks g topBlocks [] st1) as [[lines|e] st2]; [|discriminate].
  destruct (finish g (join nl lines) st2) as [[code|e] st3]; [|discriminate].
  intros [= <- _]. now exists code.
Qed.

(** C4 (as amended): the string [workspaceToCode] returns has no space or
    tab right before a newline, has no newline that only whitespace
    follows up to the end, so it does not end with two newlines, and does
    not start with whitespace followed by a newline. *)
Theorem workspaceToCode_scrubbed g topBlocks st out st' :
  workspaceToCode g topBlocks st = (Ok out, st') ->
  blankBeforeNewline out = false
  /\ blankTail out = false
  /\ endsWithTwoNewlines out = false
  /\ blankHead out = false.
Proof.
  intros Hrun. destruct (workspaceToCode_Ok _ _ _ _ _ Hrun) as [code ->].
  apply scrubWhitespace_scrubbed.
Qed.

End Properties.

(** * Concrete runs *)

Import Demo.

(** C1, at x * (a + b): the addition, of order 4, is the input B of the
    multiplication, which asks for order 3. *)
Lemma valueToCode_parentheses_witness :
  valueToCode demo mulB "B" (Num 3) st0 = (Ok "(a + b)", st0)
  /\ valueToCode demo mulB "B" (Num 4) st0 = (Ok "a + b", st0).
Proof.
  split.
  - refine (proj1 (valueToCode_parentheses demo mulB "B" addB "a + b" 4 3 st0 st0 _ _));
      reflexivity.
  - refine (proj2 (valueToCode_parentheses demo mulB "B" addB "a + b" 4 4 st0 st0 _ _) _);
      reflexivity.
Defined.

(** C1 as the specification states it fails at x * (y, z): the inner block
    has the sentinel order 99 and the context asks for order 3; the
    specification leaves the code as it is, the generator brackets it. It
    fails as well on an inner code that is empty, of order 4 under order 3:
    the specification brackets it, the generator returns it empty. *)
Lemma valueToCode_parentheses_counterexample :
  (getInputTargetBlock mulPairB "B" = Some (leaf "pair")
   /\ blockToCode demo (Some (leaf "pair")) st0 = (Ok (Tuple "y, z" (Num 99)), st0)
   /\ parenthesize_spec "y, z" 99 3 = "y, z"
   /\ valueToCode demo mulPairB "B" (Num 3) st0 = (Ok "(y, z)", st0))
  /\ (getInputTargetBlock mulBlankB "B" = Some (leaf "blank")
      /\ blockToCode demo (Some (leaf "blank")) st0 = (Ok (Tuple EmptyString (Num 4)), st0)
      /\ parenthesize_spec EmptyString 4 3 = "()"
      /\ valueToCode demo mulBlankB "B" (Num 3) st0 = (Ok EmptyString, st0)).
Proof. repeat split; reflexivity. Qed.

Lemma valueToCode_weaker_order_witness :
  valueToCode demo mulB "B" (Num 3) st0 = (Ok "(a + b)", st0).
Proof.
  refine (valueToCode_weaker_order demo mulB "B" addB "a + b" 4 3 st0 st0 _ _ _ _ _ _);
    try reflexivity; lia.
Defined.

(** C2 as the specification states it fails when the context asks for the
    atomic order 0: the addition, non-empty and of the weaker order 4, which
    is no sentinel, comes back without parentheses. *)
Lemma valueToCode_weaker_order_counterexample :
  getInputTargetBlock mulB "B" = Some addB
  /\ blockToCode demo (Some addB) st0 = (Ok (Tuple "a + b" (Num 4)), st0)
  /\ nonEmpty "a + b" = true /\ 0 < 4 /\ isSentinel 4 = false
  /\ valueToCode demo mulB "B" (Num 0) st0 = (Ok "a + b", st0).
Proof. repeat split; reflexivity. Qed.

(** C3, at the chain hello, skip (disabled), world. *)
Lemma blockToCode_disabled_transparent_witness :
  blockToCode demo (Some skipB) = blockToCode demo (Some worldB)
  /\ blockToCode demo (Some helloB) st0
     = (Ok (Str ("print('hello')" +:+ nl +:+ "print('world')" +:+ nl)), st0).
Proof.
  pose proof (blockToCode_disabled_transparent demo (fun text => text) eq_refl)
    as [Hskip [_ Hchain]].
  split.
  - exact (Hskip skipB eq_refl).
  - refine (Hchain helloB skipB worldB (textRule ("print('hello')" +:+ nl)) st0
              ("print('hello')" +:+ nl) st0 ("print('world')" +:+ nl) st0 _ _ _ _ _ _ _);
      reflexivity.
Defined.

(** C4, at the workspace of that chain. *)
Lemma workspaceToCode_scrubbed_witness :
  workspaceToCode demo [helloB] st0
  = (Ok ("print('hello')" +:+ nl +:+ "print('world')" +:+ nl), st0)
  /\ blankBeforeNewline ("print('hello')" +:+ nl +:+ "print('world')" +:+ nl) = false
  /\ blankTail ("print('hello')" +:+ nl +:+ "print('world')" +:+ nl) = false
  /\ endsWithTwoNewlines ("print('hello')" +:+ nl +:+ "print('world')" +:+ nl) = false
  /\ blankHead ("print('hello')" +:+ nl +:+ "print('world')" +:+ nl) = false.
Proof.
  split; [reflexivity|].
  apply (workspaceToCode_scrubbed demo [helloB] st0 _ st0). reflexivity.
Defined.

(** C4 as the specification states it fails on a block whose rule returns a
    newline, an x and two spaces: the result starts with a blank line, does
    not end with a newline, and its last line ends with spaces. *)
Lemma workspaceToCode_normalized_counterexample :
  workspaceToCode demo [raggedB] st0 = (Ok (nl +:+ "x  "), st0)
  /\ startsWithBlankLine (nl +:+ "x  ") = true
  /\ endsWithNewline (nl +:+ "x  ") = false
  /\ endsWithBlank (nl +:+ "x  ") = true
  /\ ~ normalized (nl +:+ "x  ").
Proof.
  repeat split; try reflexivity.
  intros [Hstart _]. discriminate Hstart.
Qed.

(** C5: two calls of [provideFunction_] for the name foo with an empty
    body. The stored text is empty, so the second call asks the name
    database again and returns another name. *)
Theorem provideFunction__empty_body_twice :
  let first := provideFunction_ demo "foo" [] st0 in
  let second := provideFunction_ demo "foo" [] first.2 in
  first.1 = Ok (Some "foo")
  /\ definitions_ first.2 !! "foo" = Some EmptyString
  /\ second.1 = Ok (Some "foo0")
  /\ variableDB_ second.2 = ({[ "foo0" ]} ∪ ({[ "foo" ]} ∪ ∅) : gset string).
Proof. repeat split; reflexivity. Qed.



(** C7, at an input that is not connected, at a disabled block, and at a
    statement block plugged as a value. *)
Lemma valueToCode_empty_or_fails_witness :
  valueToCode demo mulB "C" (Num 3) st0 = (Ok EmptyString, st0)
  /\ valueToCode demo mulDisabledB "A" (Num 3) st0 = (Ok EmptyString, st0)
  /\ valueToCode demo mulStmtB "A" (Num 3) st0
     = (Throw (Thrown ("Expecting tuple from value block " +:+ dq +:+ "bare" +:+ dq
                       +:+ ".")), st0).
Proof.
  split; [|split].
  - refine (proj1 (valueToCode_empty_or_fails demo mulB "C" 3 st0) _).
    reflexivity.
  - refine (proj1 (proj2 (proj2 (valueToCode_empty_or_fails demo mulDisabledB "A" 3 st0)))
              (mkBlock "a" true true EmptyString [] None) _ _ _);
      reflexivity.
  - refine (proj2 (proj2 (proj2 (valueToCode_empty_or_fails demo mulStmtB "A" 3 st0)))
              (stmt "bare" false None) "stmt;" st0 _ _ _);
      reflexivity.
Defined.

(** C8, at two lines and the indentation of [statementToCode]. *)
Lemma prefixLines_prefixes_witness :
  prefixLines ("a" +:+ nl +:+ "b" +:+ nl) "  " = "  a" +:+ nl +:+ "  b" +:+ nl
  /\ prefixLines ("a" +:+ nl +:+ "b" +:+ nl) "  "
     = prefixLines_spec ("a" +:+ nl +:+ "b" +:+ nl) "  ".
Proof.
  split.
  - exact (proj1 (prefixLines_prefixes ("a" +:+ nl +:+ "b" +:+ nl) "  " eq_refl)).
  - exact (proj2 (prefixLines_prefixes ("a" +:+ nl +:+ "b" +:+ nl) "  " eq_refl) eq_refl).
Defined.

(** C8 as the specification states it fails on a text with an empty line:
    the empty line follows an embedded newline and gets no prefix. *)
Lemma prefixLines_counterexample :
  prefixLines ("a" +:+ nl +:+ nl +:+ "b") "  " = "  a" +:+ nl +:+ nl +:+ "  b"
  /\ prefixLines_spec ("a" +:+ nl +:+ nl +:+ "b") "  "
     = "  a" +:+ nl +:+ "  " +:+ nl +:+ "  b"
  /\ prefixLines ("a" +:+ nl +:+ nl +:+ "b") "  "
     <> prefixLines_spec ("a" +:+ nl +:+ nl +:+ "b") "  ".
Proof. repeat split; try reflexivity. discriminate. Qed.

(** C9, at a value block plugged as statements: the guard lets the tuple
    through and [prefixLines] fails on it. *)
Example statementToCode_tuple :
  statementToCode demo loopValueB "DO" st0
  = (Throw (TypeError "text.replace is not a function"), st0).
Proof. reflexivity. Qed.

(** C10, at a body that is empty and at one that is not. *)
Lemma provideFunction__keyed_on_truthiness_witness :
  (provideFunction_ demo "foo" [] st0).1 = Ok (Some "foo")
  /\ (provideFunction_ demo "foo" ["x"] (provideFunction_ demo "foo" [] st0).2).1
     = Ok (Some "foo0")
  /\ provideFunction_ demo "bar" [] (provideFunction_ demo "bar" ["x"] st0).2
     = (Ok (Some "bar"), (provideFunction_ demo "bar" ["x"] st0).2).
Proof.
  pose proof (provideFunction__keyed_on_truthiness demo "foo" [] ["x"] st0 eq_refl)
    as [Hfirst [_ Hempty]].
  pose proof (provideFunction__keyed_on_truthiness demo "bar" ["x"] [] st0 eq_refl)
    as [_ [Hstored _]].
  split; [|split].
  - exact Hfirst.
  - exact (proj1 (Hempty eq_refl)).
  - exact (Hstored "x" eq_refl eq_refl).
Defined.

(** The scenarios of the specification. *)
Example scenario_disabled_block :
  (workspaceToCode demo [helloB] st0).1
  = Ok ("print('hello')" +:+ nl +:+ "print('world')" +:+ nl).
Proof. reflexivity. Qed.

Example scenario_addition_in_multiplication :
  (blockToCode demo (Some mulB) st0).1 = Ok (Tuple "x * (a + b)" (Num 3)).
Proof. reflexivity. Qed.

Example scenario_statement_input :
  (blockToCode demo (Some loopB) st0).1
  = Ok (Str ("while (true) {" +:+ nl +:+ "  print('hello')" +:+ nl
             +:+ "  print('world')" +:+ nl +:+ "}" +:+ nl)).
Proof. reflexivity. Qed.

(** * Further properties *)

Section FurtherProperties.
Context `{NameDatabase}.

Notation "x <- m ;; k" := (bind m (fun x => k))
  (at level 100, m at next level, right associativity).

(** ** [valueToCode] and [statementToCode] *)

(** X1: an order that is NaN is an error. When the order asked for is NaN,
    [valueToCode] throws at once, naming the type of the calling block: the
    input is not looked at and the generator is left as it was. When the
    order of the translated block is NaN, it throws naming the type of the
    connected block. *)
Theorem valueToCode_invalid_order g block name st :
  valueToCode g block name NaN st
  = (Throw (Thrown ("Expecting valid order from block " +:+ dq +:+ type block +:+ dq
                    +:+ ".")), st)
  /\ (forall target (maxOrder : Z) s st',
        getInputTargetBlock block name = Some target ->
        blockToCode g (Some target) st = (Ok (Tuple s NaN), st') ->
        valueToCode g block name (Num maxOrder) st
        = (Throw (Thrown ("Expecting valid order from value block " +:+ dq
                          +:+ type target +:+ dq +:+ ".")), st')).
Proof.
  split; [now rewrite valueToCode_eq|].
  intros target maxOrder s st' Htarget Hcode.
  exact (valueToCode_Tuple g block name target s NaN maxOrder st st' Htarget Hcode).
Qed.

(** X2: [valueToCode] changes nothing of the generator by itself and lets
    errors through: with a numeric order and a connected block, the
    generator is left as the translation of that block left it, and an error
    of that translation is the error of [valueToCode]. *)
Theorem valueToCode_state g block name target (maxOrder : Z) st :
  getInputTargetBlock block name = Some target ->
  (valueToCode g block name (Num maxOrder) st).2 = (blockToCode g (Some target) st).2
  /\ (forall e st', blockToCode g (Some target) st = (Throw e, st') ->
      valueToCode g block name (Num maxOrder) st = (Throw e, st')).
Proof.
  intros Htarget. rewrite valueToCode_eq. cbn [isNaN]. rewrite Htarget. unfold bind.
  destruct (blockToCode g (Some target) st) as [[[[|c s]|s [|n]]|e] st1]; cbn [snd].
  - split; [reflexivity|discriminate].
  - split; [reflexivity|discriminate].
  - split; [reflexivity|discriminate].
  - split; [|discriminate]. cbn [isNaN].
    destruct (nonEmpty s && num_le (Num maxOrder) (Num n)); [|reflexivity].
    now destruct (num_eq (Num maxOrder) (Num n)
                  || (num_eq (Num maxOrder) (Num 0) || num_eq (Num maxOrder) (Num 99))).
  - split; [reflexivity|]. now intros e' st' [= -> ->].
Qed.

(** X3: the order a translation rule returns decides the parentheses, and
    what [scrub_] makes of the code is what is put in them: for an enabled
    connected block whose rule returns the code [c] with the order [n], and
    whose [scrub_] turns [c] into [c'], [valueToCode] returns [c'], in
    parentheses exactly when [c'] is not empty, [maxOrder <= n], the two
    orders differ and [maxOrder] is neither 0 nor 99. *)
Theorem valueToCode_through_rule g block name target (func : Rule) c c' (n maxOrder : Z)
    st st1 st2 :
  getInputTargetBlock block name = Some target ->
  disabled target = false ->
  rules g !! type target = Some func ->
  func target (mkMethods (valueToCode g target) (statementToCode g target)) st
  = (Ok (Tuple c (Num n)), st1) ->
  scrub_ g target c (blockToCode g (nextBlock target)) st1 = (Ok c', st2) ->
  valueToCode g block name (Num maxOrder) st
  = (Ok (if nonEmpty c' && (maxOrder <=? n)
            && negb ((maxOrder =? n) || ((maxOrder =? 0) || (maxOrder =? 99)))
         then "(" +:+ c' +:+ ")" else c'), st2).
Proof.
  intros Htarget Hen Hfunc Hrule Hscrub.
  assert (Hcode : blockToCode g (Some target) st = (Ok (Tuple c' (Num n)), st2)).
  { rewrite blockToCode_eq, Hen. unfold Rule in *. rewrite Hfunc.
    rewrite (bind_Ok _ _ _ _ _ Hrule). now rewrite (bind_Ok _ _ _ _ _ Hscrub). }
  exact (valueToCode_Tuple g block name target c' (Num n) maxOrder st st2 Htarget Hcode).
Qed.

Lemma prefixLines_noDollar text prefix :
  noDollar prefix = true ->
  prefixLines text prefix = prefix +:+ prefixContentLines prefix text.
Proof.
  intros Hp. unfold prefixLines, replaceAll. f_equal.
  now apply (replaceAll_prefix prefix Hp (String.length text)).
Qed.

(** X4: [statementToCode] indents. When the chain at the named input
    translates to the string [s] (the empty string when nothing is
    connected), [statementToCode] returns the empty string for an empty
    [s], and otherwise [s] with two spaces in front of it and after every
    newline that is followed by a code unit other than a line terminator;
    the result is empty only when [s] is. *)
Theorem statementToCode_indents g block name s st st' :
  blockToCode g (getInputTargetBlock block name) st = (Ok (Str s), st') ->
  statementToCode g block name st
  = (Ok (if nonEmpty s then "  " +:+ prefixContentLines "  " s else EmptyString), st')
  /\ (forall r st2, statementToCode g block name st = (Ok r, st2) ->
      nonEmpty r = nonEmpty s).
Proof.
  intros Hcode.
  assert (Hrun : statementToCode g block name st
    = (Ok (if nonEmpty s then "  " +:+ prefixContentLines "  " s else EmptyString), st')).
  { rewrite statementToCode_eq. cbv zeta. rewrite (bind_Ok _ _ _ _ _ Hcode).
    rewrite statementGuard_false. destruct s as [|c s]; [reflexivity|].
    cbn [nonEmpty]. unfold ret. now rewrite prefixLines_noDollar. }
  split; [exact Hrun|].
  intros r st2. rewrite Hrun. intros [= <- _]. now destruct s.
Qed.

(** X5: [statementToCode] changes nothing of the generator by itself and
    lets errors through: nothing connected gives the empty string and the
    same generator, and an error of the translation of the chain is the
    error of [statementToCode]. *)
Theorem statementToCode_state g block name st :
  (getInputTargetBlock block name = None ->
   statementToCode g block name st = (Ok EmptyString, st))
  /\ (statementToCode g block name st).2
     = (blockToCode g (getInputTargetBlock block name) st).2
  /\ (forall e st', blockToCode g (getInputTargetBlock block name) st = (Throw e, st') ->
      statementToCode g block name st = (Throw e, st')).
Proof.
  rewrite statementToCode_eq. cbv zeta. repeat split.
  - intros ->. reflexivity.
  - unfold bind.
    destruct (blockToCode g (getInputTargetBlock block name) st) as [[code|e] st1];
      [|reflexivity].
    rewrite statementGuard_false. destruct code as [[|c s]|c n]; reflexivity.
  - intros e st' Hthrow. now rewrite (bind_Throw _ _ _ _ _ Hthrow).
Qed.

(** ** [blockToCode] *)

(** X6: disabled blocks are passed over one after the other: [blockToCode]
    of a block is [blockToCode] of the first block on its next-chain that is
    not disabled, and the empty string when there is none, whatever the
    types of the disabled blocks are. *)
Theorem blockToCode_firstEnabled g :
  forall block,
    blockToCode g (Some block) = blockToCode g (firstEnabled block)
    /\ (firstEnabled block = None -> blockToCode g (Some block) = ret (Str EmptyString))
    /\ (forall b, firstEnabled block = Some b -> disabled b = false).
Proof.
  fix IH 1. intros [ty dis out cmt ins next].
  destruct dis.
  - destruct next as [[nb|]|].
    + destruct (IH nb) as [Hcode [Hnone Hen]]. split; [exact Hcode|].
      split; [exact Hnone|exact Hen].
    + split; [reflexivity|]. split; [reflexivity|discriminate].
    + split; [reflexivity|]. split; [reflexivity|discriminate].
  - split; [reflexivity|]. split; [discriminate|]. now intros b [= <-].
Qed.

(** ** [prefixLines] *)

Lemma append_nil_l (s : string) : EmptyString +:+ s = s.
Proof. reflexivity. Qed.

Lemma prefixContentLines_cons prefix c rest :
  prefixContentLines prefix (String c rest)
  = if isNL c && contentStart rest
    then String c (prefix +:+ prefixContentLines prefix rest)
    else String c (prefixContentLines prefix rest).
Proof. destruct rest; [now rewrite andb_false_r|reflexivity]. Qed.

Lemma prefixContentLines_nil_prefix text : prefixContentLines EmptyString text = text.
Proof.
  induction text as [|c rest IH]; [reflexivity|].
  rewrite prefixContentLines_cons, IH, append_nil_l.
  now destruct (isNL c && contentStart rest).
Qed.

(** X7: an empty prefix changes nothing: [prefixLines(text, '')] is [text]. *)
Theorem prefixLines_empty_prefix text : prefixLines text EmptyString = text.
Proof.
  rewrite prefixLines_noDollar by reflexivity.
  now rewrite append_nil_l, prefixContentLines_nil_prefix.
Qed.

Lemma noDollar_app a b : noDollar a = true -> noDollar b = true -> noDollar (a +:+ b) = true.
Proof.
  intros Ha Hb. induction a as [|c a IH]; [exact Hb|].
  rewrite append_cons. cbn [noDollar] in *.
  apply andb_true_iff in Ha as [Hc Ha]. now rewrite Hc, (IH Ha).
Qed.

Lemma contentStart_prefixContentLines prefix s :
  contentStart (prefixContentLines prefix s) = contentStart s.
Proof.
  destruct s as [|c rest]; [reflexivity|]. rewrite prefixContentLines_cons.
  now destruct (isNL c && contentStart rest).
Qed.

Lemma contentStart_app p s :
  noLineTerminator p = true -> contentStart s = true -> contentStart (p +:+ s) = true.
Proof.
  intros Hp Hs. destruct p as [|c p]; [exact Hs|].
  rewrite append_cons. cbn [noLineTerminator contentStart] in *.
  now apply andb_true_iff in Hp as [-> _].
Qed.

Lemma prefixContentLines_app q p s :
  noLineTerminator p = true ->
  prefixContentLines q (p +:+ s) = p +:+ prefixContentLines q s.
Proof.
  intros Hp. induction p as [|c p IH]; [reflexivity|].
  cbn [noLineTerminator] in Hp. apply andb_true_iff in Hp as [Hc Hp].
  rewrite !append_cons, prefixContentLines_cons, (IH Hp).
  assert (HNL : isNL c = false).
  { unfold isLineTerminator in Hc. unfold isNL. now destruct (Ascii.eqb c LF). }
  now rewrite HNL.
Qed.

Lemma prefixContentLines_twice p q text :
  noLineTerminator p = true ->
  prefixContentLines q (prefixContentLines p text) = prefixContentLines (q +:+ p) text.
Proof.
  intros Hp. induction text as [|c rest IH]; [reflexivity|].
  rewrite (prefixContentLines_cons p), (prefixContentLines_cons (q +:+ p)).
  destruct (isNL c && contentStart rest) eqn:Hc.
  - rewrite prefixContentLines_cons.
    apply andb_true_iff in Hc as [Hnl Hstart]. rewrite Hnl. cbn [andb].
    rewrite contentStart_app
      by (try exact Hp; now rewrite contentStart_prefixContentLines).
    rewrite prefixContentLines_app by exact Hp. now rewrite IH, append_assoc.
  - rewrite prefixContentLines_cons, contentStart_prefixContentLines, Hc.
    now rewrite IH.
Qed.

(** X8: indentation adds up. For prefixes without dollar sign, the inner
    one without line terminator, [prefixLines] with [p] and then with [q] is
    [prefixLines] with [q + p]: a statement nested twice is indented by four
    spaces. *)
Theorem prefixLines_compose text p q :
  noDollar p = true -> noDollar q = true -> noLineTerminator p = true ->
  prefixLines (prefixLines text p) q = prefixLines text (q +:+ p).
Proof.
  intros Hp Hq Hlt.
  rewrite (prefixLines_noDollar text p Hp), (prefixLines_noDollar _ q Hq).
  rewrite (prefixLines_noDollar text (q +:+ p)) by now apply noDollar_app.
  rewrite prefixContentLines_app by exact Hlt.
  now rewrite prefixContentLines_twice, append_assoc.
Qed.

(** ** The scrubbing of whitespace, again *)

Lemma stripTail_clean s : blankTail s = false -> stripTail s = s.
Proof.
  induction s as [|c s IH]; [reflexivity|].
  rewrite blankTail_cons, stripTail_cons. intros Hs.
  apply orb_false_iff in Hs as [-> Hs]. now rewrite (IH Hs).
Qed.

Lemma blankBeforeNewline_run s :
  forall c, isBlank c = true -> blanksThenNL s = true ->
  blankBeforeNewline (String c s) = true.
Proof.
  induction s as [|d s IH]; intros c Hc Hs; [discriminate|].
  rewrite blankBeforeNewline_cons. rewrite blanksThenNL_cons in Hs.
  destruct (isBlank d) eqn:Hd.
  - now rewrite (IH d Hd Hs), orb_true_r.
  - cbn [startsWithNL]. now rewrite Hc, Hs.
Qed.

Lemma stripBlanks_clean s : blankBeforeNewline s = false -> stripBlanks s = s.
Proof.
  induction s as [|c s IH]; [reflexivity|].
  intros Hs. rewrite stripBlanks_cons.
  destruct (isBlank c && blanksThenNL s) eqn:Hd.
  - apply andb_true_iff in Hd as [Hc Hrun].
    now rewrite (blankBeforeNewline_run s c Hc Hrun) in Hs.
  - rewrite blankBeforeNewline_cons in Hs. apply orb_false_iff in Hs as [_ Hs].
    now rewrite (IH Hs).
Qed.

Lemma replaceAtStart_clean s :
  blankHead s = false -> replaceAtStart re_leading_blank EmptyString s = s.
Proof.
  unfold blankHead, replaceAtStart.
  now destruct (re_leading_blank s).
Qed.

(** X9: the scrubbing of [workspaceToCode] leaves a text as it is exactly
    when the text has none of the three artifacts: it does not start with
    whitespace followed by a newline, has no newline that only whitespace
    follows up to the end, and no space or tab right before a newline. *)
Theorem scrubWhitespace_fixpoint code :
  scrubWhitespace code = code
  <-> blankHead code = false /\ blankTail code = false
      /\ blankBeforeNewline code = false.
Proof.
  split.
  - intros Hfix. destruct (scrubWhitespace_scrubbed code) as [Hb [Ht [_ Hh]]].
    rewrite Hfix in Hb, Ht, Hh. now repeat split.
  - intros [Hh [Ht Hb]]. rewrite scrubWhitespace_eq.
    now rewrite (replaceAtStart_clean code Hh), (stripTail_clean code Ht),
      (stripBlanks_clean code Hb).
Qed.

(** X10: the scrubbing of [workspaceToCode] is idempotent: a text that has
    gone through it goes through it again unchanged. *)
Theorem scrubWhitespace_idempotent code :
  scrubWhitespace (scrubWhitespace code) = scrubWhitespace code.
Proof.
  destruct (scrubWhitespace_scrubbed code) as [Hb [Ht [_ Hh]]].
  rewrite scrubWhitespace_eq at 1.
  now rewrite (replaceAtStart_clean _ Hh), (stripTail_clean _ Ht), (stripBlanks_clean _ Hb).
Qed.

Lemma withoutSpaces_allSpace s : allSpace s = true -> withoutSpaces s = EmptyString.
Proof.
  induction s as [|c s IH]; [reflexivity|]. cbn [allSpace withoutSpaces].
  intros Hs. apply andb_true_iff in Hs as [-> Hs]. exact (IH Hs).
Qed.

Lemma withoutSpaces_stripTail s : withoutSpaces (stripTail s) = withoutSpaces s.
Proof.
  induction s as [|c s IH]; [reflexivity|]. rewrite stripTail_cons.
  destruct (isNL c && nonEmpty s && allSpace s) eqn:Ht.
  - apply andb_true_iff in Ht as [Ht Hs]. apply andb_true_iff in Ht as [Hc _].
    cbn [withoutSpaces]. now rewrite (isNL_isSpace _ Hc), (withoutSpaces_allSpace s Hs).
  - cbn [withoutSpaces]. now rewrite IH.
Qed.

Lemma withoutSpaces_stripBlanks s : withoutSpaces (stripBlanks s) = withoutSpaces s.
Proof.
  induction s as [|c s IH]; [reflexivity|]. rewrite stripBlanks_cons.
  destruct (isBlank c && blanksThenNL s) eqn:Hd.
  - apply andb_true_iff in Hd as [Hc _].
    cbn [withoutSpaces]. now rewrite (isBlank_isSpace _ Hc).
  - cbn [withoutSpaces]. now rewrite IH.
Qed.

Lemma withoutSpaces_match s m :
  match_spaces_nl s = Some m ->
  withoutSpaces (dropn (String.length m) s) = withoutSpaces s.
Proof.
  revert m. induction s as [|c s IH]; intros m Hm; [discriminate|].
  cbn [match_spaces_nl] in Hm. destruct (isSpace c) eqn:Hc; [|discriminate].
  cbn [withoutSpaces]. rewrite Hc.
  destruct (match_spaces_nl s) as [m'|] eqn:Hs.
  - injection Hm as <-. cbn [String.length dropn]. now apply IH.
  - destruct (isNL c); [|discriminate]. now injection Hm as <-.
Qed.

Lemma withoutSpaces_replaceAtStart s :
  withoutSpaces (replaceAtStart re_leading_blank EmptyString s) = withoutSpaces s.
Proof.
  unfold replaceAtStart. destruct (re_leading_blank s) as [r|] eqn:Hr; [|reflexivity].
  cbn [GetSubstitution]. rewrite append_nil_l.
  destruct s as [|c s]; [discriminate|]. cbn [re_leading_blank] in Hr.
  destruct (isSpace c) eqn:Hc; [|discriminate].
  destruct (match_spaces_nl s) as [m|] eqn:Hs; [|discriminate].
  injection Hr as <-. cbn [matched String.length dropn withoutSpaces]. rewrite Hc.
  now apply withoutSpaces_match.
Qed.

Lemma length_stripTail s : (String.length (stripTail s) <= String.length s)%nat.
Proof.
  induction s as [|c s IH]; [reflexivity|]. rewrite stripTail_cons.
  destruct (isNL c && nonEmpty s && allSpace s); cbn [String.length nl]; lia.
Qed.

Lemma length_stripBlanks s : (String.length (stripBlanks s) <= String.length s)%nat.
Proof.
  induction s as [|c s IH]; [reflexivity|]. rewrite stripBlanks_cons.
  destruct (isBlank c && blanksThenNL s); cbn [String.length]; lia.
Qed.

Lemma length_replaceAtStart s :
  (String.length (replaceAtStart re_leading_blank EmptyString s) <= String.length s)%nat.
Proof.
  unfold replaceAtStart. destruct (re_leading_blank s) as [r|]; [|reflexivity].
  cbn [GetSubstitution]. rewrite append_nil_l. apply dropn_length_le.
Qed.

(** X11: the scrubbing of [workspaceToCode] only takes whitespace away: the
    code units that are no whitespace come out the same and in the same
    order, and the text does not get longer. *)
Theorem scrubWhitespace_keeps_content code :
  withoutSpaces (scrubWhitespace code) = withoutSpaces code
  /\ (String.length (scrubWhitespace code) <= String.length code)%nat.
Proof.
  rewrite scrubWhitespace_eq. split.
  - now rewrite withoutSpaces_stripBlanks, withoutSpaces_stripTail,
      withoutSpaces_replaceAtStart.
  - pose proof (length_stripBlanks
      (stripTail (replaceAtStart re_leading_blank EmptyString code))).
    pose proof (length_stripTail (replaceAtStart re_leading_blank EmptyString code)).
    pose proof (length_replaceAtStart code). lia.
Qed.

(** ** [workspaceToCode] *)

(** The loop over the top blocks goes through a list piece by piece. *)
Lemma translateTopBlocks_app g l1 l2 :
  forall code st,
  translateTopBlocks g (l1 ++ l2) code st
  = (code' <- translateTopBlocks g l1 code ;; translateTopBlocks g l2 code') st.
Proof.
  induction l1 as [|a l1 IH]; intros code st; [reflexivity|].
  cbn [app translateTopBlocks]. unfold bind.
  destruct (blockToCode g (Some a) st) as [[line|e] st1]; [|reflexivity].
  destruct (nonEmpty match line with Tuple c _ => c | Str l => l end); [|exact (IH _ _)].
  destruct (outputConnection a).
  - destruct (scrubNakedValue g) as [scrub|].
    + destruct (scrub _ st1) as [[line'|e] st2]; [exact (IH _ _)|reflexivity].
    + exact (IH _ _).
  - exact (IH _ _).
Qed.

(** A chain that is disabled to its end translates to the empty string. *)
Lemma blockToCode_dead g :
  forall block, firstEnabled block = None ->
  blockToCode g (Some block) = ret (Str EmptyString).
Proof.
  fix IH 1. intros [ty dis out cmt ins next]. destruct dis; [|discriminate].
  destruct next as [[nb|]|]; [|reflexivity|reflexivity].
  intros Hfirst. exact (IH nb Hfirst).
Qed.

Lemma translateTopBlocks_dead g block rest code st :
  firstEnabled block = None ->
  translateTopBlocks g (block :: rest) code st = translateTopBlocks g rest code st.
Proof.
  intros Hdead. cbn [translateTopBlocks]. now rewrite (blockToCode_dead g block Hdead).
Qed.

(** X12: a top block whose chain is disabled to its end leaves no trace in
    the result of [workspaceToCode], not even an empty line: the workspace
    with it translates as the workspace without it. *)
Theorem workspaceToCode_skips_disabled g l1 block l2 st :
  firstEnabled block = None ->
  workspaceToCode g (l1 ++ block :: l2) st = workspaceToCode g (l1 ++ l2) st.
Proof.
  intros Hdead.
  assert (Hloop : forall st1,
    translateTopBlocks g (l1 ++ block :: l2) [] st1
    = translateTopBlocks g (l1 ++ l2) [] st1).
  { intros st1. rewrite !translateTopBlocks_app. unfold bind.
    destruct (translateTopBlocks g l1 [] st1) as [[code|e] st2]; [|reflexivity].
    exact (translateTopBlocks_dead g block l2 code st2 Hdead). }
  unfold workspaceToCode, bind.
  destruct (init g st) as [[[]|e] st1]; [|reflexivity].
  now rewrite Hloop.
Qed.

(** X13: an error in a top block ends the pass. When [init] has returned,
    the top blocks before [block] have been translated and the translation
    of [block] throws, [workspaceToCode] throws that error: the blocks
    after it are not translated and [finish] is not run. *)
Theorem workspaceToCode_aborts g l1 block l2 st st1 code st2 e st3 :
  init g st = (Ok tt, st1) ->
  translateTopBlocks g l1 [] st1 = (Ok code, st2) ->
  blockToCode g (Some block) st2 = (Throw e, st3) ->
  workspaceToCode g (l1 ++ block :: l2) st = (Throw e, st3).
Proof.
  intros Hinit Hbefore Hthrow. unfold workspaceToCode.
  rewrite (bind_Ok _ _ _ _ _ Hinit). apply bind_Throw.
  rewrite translateTopBlocks_app, (bind_Ok _ _ _ _ _ Hbefore).
  cbn [translateTopBlocks]. now apply bind_Throw.
Qed.

(** ** [provideFunction_], [addReservedWords] and [allNestedComments] *)

(** X14: [provideFunction_] touches the entries of its own name only: the
    entries of every other name in [definitions_] and [functionNames_] and
    the reserved words are as before, and the name database is as before
    when the stored definition text of the name is not empty. *)
Theorem provideFunction__frame g desiredName code st :
  let st' := (provideFunction_ g desiredName code st).2 in
  (forall other, other <> desiredName ->
     definitions_ st' !! other = definitions_ st !! other
     /\ functionNames_ st' !! other = functionNames_ st !! other)
  /\ RESERVED_WORDS_ st' = RESERVED_WORDS_ st
  /\ (truthyText (definitions_ st !! desiredName) = true ->
      variableDB_ st' = variableDB_ st).
Proof.
  cbv zeta. destruct (truthyText (definitions_ st !! desiredName)) eqn:Htext.
  - rewrite provideFunction__stored by exact Htext. now repeat split.
  - rewrite provideFunction__allocates by exact Htext.
    cbn [snd definitions_ functionNames_ RESERVED_WORDS_]. split; [|now split].
    intros other Hother. now rewrite !lookup_insert_ne by congruence.
Qed.

(** X15: [provideFunction_] returns undefined for a name that has a
    definition text which is not empty and no function name, as after the
    binding has stored a definition under that name itself; the generator is
    left as it is. *)
Theorem provideFunction__undefined g desiredName code st :
  truthyText (definitions_ st !! desiredName) = true ->
  functionNames_ st !! desiredName = None ->
  provideFunction_ g desiredName code st = (Ok None, st).
Proof.
  intros Htext Hname. rewrite provideFunction__stored by exact Htext. now rewrite Hname.
Qed.

Lemma replaceAll_no_match p template s :
  occurs p s = false ->
  forall before, replaceAll_from (re_literal p) template before O s = s.
Proof.
  induction s as [|c s IH]; intros Hs before; [reflexivity|].
  cbn [occurs] in Hs. apply orb_false_iff in Hs as [Hhead Hs].
  rewrite replaceAll_from_step. unfold re_literal. rewrite Hhead, andb_false_r.
  now rewrite IH.
Qed.

(** X16: a body without the placeholder is stored as it is: the lines
    joined by newlines, whatever the actual name is. *)
Theorem provideFunction__verbatim g desiredName code st :
  truthyText (definitions_ st !! desiredName) = false ->
  occurs FUNCTION_NAME_PLACEHOLDER_ (join nl code) = false ->
  definitions_ (provideFunction_ g desiredName code st).2 !! desiredName
  = Some (join nl code).
Proof.
  intros Htext Hocc. rewrite provideFunction__allocates by exact Htext.
  cbn [snd definitions_]. rewrite lookup_insert_eq. unfold replaceAll.
  now rewrite (replaceAll_no_match _ _ _ Hocc).
Qed.

Lemma startsWith_app p s : startsWith p (p +:+ s) = true.
Proof.
  induction p as [|c p IH]; [reflexivity|].
  rewrite append_cons. cbn [startsWith]. now rewrite Ascii.eqb_refl, IH.
Qed.

Lemma dropn_app a b : dropn (String.length a) (a +:+ b) = b.
Proof. induction a as [|c a IH]; [reflexivity|]. rewrite append_cons. exact IH. Qed.

Lemma replaceAll_literal_head c p name rest before :
  noDollar name = true ->
  replaceAll_from (re_literal (String c p)) name before O (String c p +:+ rest)
  = name +:+ replaceAll (re_literal (String c p)) name rest.
Proof.
  intros Hname. rewrite append_cons, replaceAll_from_step, <- append_cons.
  unfold re_literal. rewrite startsWith_app. cbn [nonEmpty andb matched captures].
  rewrite GetSubstitution_literal by exact Hname. f_equal.
  replace (String.length (String c p) - 1)%nat with (String.length p)
    by (cbn [String.length]; lia).
  rewrite replaceAll_from_dropn by exact Hname. now rewrite dropn_app.
Qed.

Lemma replaceAll_literal_pre c p name pre rest :
  noChar c pre = true ->
  forall before,
  replaceAll_from (re_literal (String c p)) name before O (pre +:+ rest)
  = pre +:+ replaceAll_from (re_literal (String c p)) name (before +:+ pre) O rest.
Proof.
  induction pre as [|d pre IH]; intros Hpre before.
  - now rewrite append_nil_l, append_nil_r.
  - cbn [noChar] in Hpre. apply andb_true_iff in Hpre as [Hd Hpre].
    rewrite !append_cons, replaceAll_from_step. unfold re_literal.
    cbn [nonEmpty startsWith andb]. apply negb_true_iff in Hd. rewrite Hd. cbn [andb].
    rewrite (IH Hpre). unfold snoc. now rewrite append_assoc.
Qed.

(** X17: the placeholder becomes the actual name. When the joined body is
    a text without opening brace, then the placeholder, then a rest, and
    the actual name has no dollar sign, the definition stored is that text,
    then the actual name, then the rest with its placeholders replaced. *)
Theorem provideFunction__substitutes g desiredName code pre post st :
  truthyText (definitions_ st !! desiredName) = false ->
  join nl code = pre +:+ FUNCTION_NAME_PLACEHOLDER_ +:+ post ->
  noChar "{"%char pre = true ->
  noDollar (getDistinctName (variableDB_ st) desiredName (NAME_TYPE g)).1 = true ->
  definitions_ (provideFunction_ g desiredName code st).2 !! desiredName
  = Some (pre
          +:+ (getDistinctName (variableDB_ st) desiredName (NAME_TYPE g)).1
          +:+ replaceAll FUNCTION_NAME_PLACEHOLDER_REGEXP_
                (getDistinctName (variableDB_ st) desiredName (NAME_TYPE g)).1 post).
Proof.
  intros Htext Hbody Hpre Hname. rewrite provideFunction__allocates by exact Htext.
  cbn [snd definitions_]. rewrite lookup_insert_eq, Hbody. f_equal.
  unfold replaceAll at 1, FUNCTION_NAME_PLACEHOLDER_REGEXP_.
  change FUNCTION_NAME_PLACEHOLDER_ with (String "{"%char "leCUI8hutHZI4480Dc}") in *.
  rewrite (replaceAll_literal_pre _ _ _ _ _ Hpre).
  now rewrite (replaceAll_literal_head _ _ _ _ _ Hname).
Qed.

(** X18: along a pass that starts with no function name and goes on by
    calls of [provideFunction_] and [addReservedWords], no two logical
    names ever have the same actual name, and every actual name is one the
    name database has handed out. *)
Theorem inPass_names g st :
  inPass g st -> namesInjective st /\ namesTaken st.
Proof.
  induction 1 as [st Hempty|st desiredName code Hpass [Hinj Htaken]
                  |st words Hpass IH].
  - split; intros k; intros; rewrite Hempty, lookup_empty in *; discriminate.
  - destruct (truthyText (definitions_ st !! desiredName)) eqn:Htext.
    + rewrite provideFunction__stored by exact Htext. now split.
    + rewrite provideFunction__allocates by exact Htext. cbv zeta. cbn [snd].
      pose proof (getDistinctName_fresh (variableDB_ st) desiredName (NAME_TYPE g))
        as Hfresh.
      pose proof (getDistinctName_taken (variableDB_ st) desiredName (NAME_TYPE g))
        as Hnew.
      split.
      * intros k1 k2 n. cbn [functionNames_].
        destruct (decide (desiredName = k1)) as [<-|Hn1];
          destruct (decide (desiredName = k2)) as [<-|Hn2];
          rewrite ?lookup_insert_eq, ?lookup_insert_ne by assumption;
          intros Hk1 Hk2.
        -- reflexivity.
        -- injection Hk1 as <-. exfalso. apply Hfresh. exact (Htaken _ _ Hk2).
        -- injection Hk2 as <-. exfalso. apply Hfresh. exact (Htaken _ _ Hk1).
        -- exact (Hinj _ _ _ Hk1 Hk2).
      * intros k n. cbn [functionNames_ variableDB_]. rewrite Hnew.
        destruct (decide (desiredName = k)) as [<-|Hn];
          rewrite ?lookup_insert_eq, ?lookup_insert_ne by assumption; intros Hk.
        -- injection Hk as <-. apply elem_of_union_l, elem_of_singleton. reflexivity.
        -- apply elem_of_union_r. exact (Htaken _ _ Hk).
  - exact IH.
Qed.

(** X19: [addReservedWords] only adds. After the batches of a list have
    been added one after the other, the reserved words are the ones before,
    followed by each batch and a comma, in the order of the list; the rest
    of the generator is as before. *)
Theorem addAllReservedWords_accumulates batches :
  forall st,
  addAllReservedWords batches st
  = (Ok tt, mkState (RESERVED_WORDS_ st
                     +:+ concatAll (map (fun words => words +:+ ",") batches))
                    (definitions_ st) (functionNames_ st) (variableDB_ st)).
Proof.
  induction batches as [|words rest IH]; intros st.
  - destruct st. cbn [addAllReservedWords concatAll map]. unfold ret.
    cbn [RESERVED_WORDS_ definitions_ functionNames_ variableDB_].
    now rewrite append_nil_r.
  - cbn [addAllReservedWords]. unfold bind, addReservedWords at 1. rewrite IH.
    cbn [RESERVED_WORDS_ definitions_ functionNames_ variableDB_ map concatAll].
    now rewrite !append_assoc.
Qed.

Lemma join_trailing l :
  forall x, join nl ((x :: l) ++ [EmptyString])
            = concatAll (map (fun c => c +:+ nl) (x :: l)).
Proof.
  induction l as [|y l IH]; intros x.
  - cbn [app join map concatAll]. rewrite ?append_nil_r. reflexivity.
  - change (join nl ((x :: y :: l) ++ [EmptyString]))
      with (x +:+ nl +:+ join nl ((y :: l) ++ [EmptyString])).
    rewrite IH. cbn [map concatAll]. now rewrite !append_assoc.
Qed.

Lemma nestedComments_filter blocks :
  nestedComments blocks = List.filter nonEmpty (List.map commentText blocks).
Proof.
  induction blocks as [|b rest IH]; [reflexivity|].
  cbn [nestedComments List.map List.filter]. rewrite IH.
  now destruct (nonEmpty (commentText b)).
Qed.

(** X20: [allNestedComments] returns the comments that are not empty, in
    the order of the blocks, each followed by one newline; without such a
    comment it returns the empty string. *)
Theorem allNestedComments_lines descendants :
  allNestedComments descendants
  = concatAll (map (fun c => c +:+ nl)
                 (List.filter nonEmpty (List.map commentText descendants))).
Proof.
  unfold allNestedComments. rewrite nestedComments_filter.
  destruct (List.filter nonEmpty (List.map commentText descendants)) as [|x l];
    [reflexivity|apply join_trailing].
Qed.

(** ** The pair of scrollbars *)

Lemma ne_same x : isNaN x = false -> ScrollbarPair.ne x x = false.
Proof.
  destruct x as [|z]; [discriminate|]. intros _.
  unfold ScrollbarPair.ne. cbn [num_eq]. now rewrite Z.eqb_refl.
Qed.

(** X21: [resize] remembers the metrics it has seen. After a call with
    metrics that are all numbers, the metrics are cached, and a second call
    with the same metrics calls neither scrollbar and leaves the corner
    where it is. *)
Theorem resize_cached m old :
  ScrollbarPair.numeric m = true ->
  (ScrollbarPair.resize (Some m) old).1 = Some m
  /\ ScrollbarPair.resize (Some m) (ScrollbarPair.resize (Some m) old).1 = (Some m, []).
Proof.
  intros Hnum. split; [reflexivity|].
  cbn [ScrollbarPair.resize fst]. unfold ScrollbarPair.numeric in Hnum.
  repeat (apply andb_true_iff in Hnum as [Hnum ?]).
  repeat match goal with
         | Hx : negb (isNaN _) = true |- _ =>
             apply negb_true_iff in Hx; rewrite (ne_same _ Hx); clear Hx
         end.
  reflexivity.
Qed.

(** X22: the corner is never moved alone: whenever [resize] sets the x or
    the y of the corner rectangle, it has resized both scrollbars in that
    call. *)
Theorem resize_corner_needs_both getMetrics old :
  In ScrollbarPair.CornerSetX (ScrollbarPair.resize getMetrics old).2
  \/ In ScrollbarPair.CornerSetY (ScrollbarPair.resize getMetrics old).2 ->
  exists m,
    getMetrics = Some m
    /\ In (ScrollbarPair.HScrollResize m) (ScrollbarPair.resize getMetrics old).2
    /\ In (ScrollbarPair.VScrollResize m) (ScrollbarPair.resize getMetrics old).2.
Proof.
  destruct getMetrics as [m|]; [|cbn; tauto].
  intros Hcorner. exists m. split; [reflexivity|]. revert Hcorner.
  destruct old as [o|]; [|cbn; tauto].
  cbn [ScrollbarPair.resize snd].
  destruct (ScrollbarPair.ne (ScrollbarPair.viewWidth o) (ScrollbarPair.viewWidth m)),
    (ScrollbarPair.ne (ScrollbarPair.viewHeight o) (ScrollbarPair.viewHeight m)),
    (ScrollbarPair.ne (ScrollbarPair.absoluteTop o) (ScrollbarPair.absoluteTop m)),
    (ScrollbarPair.ne (ScrollbarPair.absoluteLeft o) (ScrollbarPair.absoluteLeft m));
    cbn [orb app In];
    first [ intros _; split; [left; reflexivity|right; left; reflexivity]
          | destruct (_ || _ || _), (_ || _ || _); cbn [app In];
            intuition discriminate ].
Qed.

(** X23: when the window has kept its size and place, [resize] leaves the
    corner where it is and resizes a scrollbar only when one of the three
    content metrics of its own direction has changed. *)
Theorem resize_same_window o m :
  ScrollbarPair.sameWindow o m = true ->
  (ScrollbarPair.resize (Some m) (Some o)).2
  = (if ScrollbarPair.ne (ScrollbarPair.contentWidth o) (ScrollbarPair.contentWidth m)
        || ScrollbarPair.ne (ScrollbarPair.viewLeft o) (ScrollbarPair.viewLeft m)
        || ScrollbarPair.ne (ScrollbarPair.contentLeft o) (ScrollbarPair.contentLeft m)
     then [ScrollbarPair.HScrollResize m] else [])
    ++ (if ScrollbarPair.ne (ScrollbarPair.contentHeight o) (ScrollbarPair.contentHeight m)
           || ScrollbarPair.ne (ScrollbarPair.viewTop o) (ScrollbarPair.viewTop m)
           || ScrollbarPair.ne (ScrollbarPair.contentTop o) (ScrollbarPair.contentTop m)
        then [ScrollbarPair.VScrollResize m] else []).
Proof.
  unfold ScrollbarPair.sameWindow. intros Hsame.
  repeat (apply andb_true_iff in Hsame as [Hsame ?]).
  repeat match goal with
         | Hx : num_eq ?a ?b = true |- _ =>
             assert (ScrollbarPair.ne a b = false)
               by (unfold ScrollbarPair.ne; now rewrite Hx);
             clear Hx
         end.
  cbn [ScrollbarPair.resize snd].
  repeat match goal with
         | Hx : ScrollbarPair.ne _ _ = false |- _ => rewrite Hx; clear Hx
         end.
  cbn [orb].
  now destruct (_ || _ || _), (_ || _ || _).
Qed.

End FurtherProperties.

(** * Further concrete runs *)

Import Demo2.

(** X1, at a call that asks for the order NaN and at a connected block
    whose order is NaN. *)
Lemma valueToCode_invalid_order_witness :
  valueToCode demo mulB "C" NaN st0
  = (Throw (Thrown ("Expecting valid order from block " +:+ dq +:+ "mul" +:+ dq +:+ ".")),
     st0)
  /\ valueToCode demo2 mulNanB "A" (Num 3) st0
     = (Throw (Thrown ("Expecting valid order from value block " +:+ dq +:+ "nan" +:+ dq
                       +:+ ".")), st0).
Proof.
  split.
  - exact (proj1 (valueToCode_invalid_order demo mulB "C" st0)).
  - refine (proj2 (valueToCode_invalid_order demo2 mulNanB "A" st0)
              (leaf "nan") 3 "q" st0 _ _); reflexivity.
Defined.

(** X2, at the addition in the multiplication and at a block whose rule
    throws. *)
Lemma valueToCode_state_witness :
  (valueToCode demo mulB "B" (Num 3) st0).2 = (blockToCode demo (Some addB) st0).2
  /\ valueToCode demo2 mulBoomB "A" (Num 3) st0 = (Throw (Thrown "boom"), st0).
Proof.
  split.
  - exact (proj1 (valueToCode_state demo mulB "B" addB 3 st0 eq_refl)).
  - refine (proj2 (valueToCode_state demo2 mulBoomB "A" (leaf "boom") 3 st0 eq_refl)
              (Thrown "boom") st0 _); reflexivity.
Defined.

(** X3, at the addition in the multiplication. *)
Lemma valueToCode_through_rule_witness :
  valueToCode demo mulB "B" (Num 3) st0 = (Ok "(a + b)", st0).
Proof.
  refine (valueToCode_through_rule demo mulB "B" addB (binRule " + " 4)
            "a + b" "a + b" 4 3 st0 st0 st0 _ _ _ _ _); reflexivity.
Defined.

(** X4, at the loop around hello and world. *)
Lemma statementToCode_indents_witness :
  statementToCode demo loopB "DO" st0
  = (Ok ("  print('hello')" +:+ nl +:+ "  print('world')" +:+ nl), st0).
Proof.
  refine (proj1 (statementToCode_indents demo loopB "DO"
                   ("print('hello')" +:+ nl +:+ "print('world')" +:+ nl) st0 st0 _));
    reflexivity.
Defined.

(** X5, at an input that is not there and at a chain whose rule throws. *)
Lemma statementToCode_state_witness :
  statementToCode demo mulB "DO" st0 = (Ok EmptyString, st0)
  /\ statementToCode demo2 loopBoomB "DO" st0 = (Throw (Thrown "boom"), st0).
Proof.
  split.
  - exact (proj1 (statementToCode_state demo mulB "DO" st0) eq_refl).
  - refine (proj2 (proj2 (statementToCode_state demo2 loopBoomB "DO" st0))
              (Thrown "boom") st0 _); reflexivity.
Defined.

(** X6, at two disabled blocks before world and at a chain that is
    disabled to its end. *)
Lemma blockToCode_firstEnabled_witness :
  blockToCode demo (Some skipSkipB) = blockToCode demo (Some worldB)
  /\ blockToCode demo (Some deadB) = ret (Str EmptyString).
Proof.
  split.
  - exact (proj1 (blockToCode_firstEnabled demo skipSkipB)).
  - exact (proj1 (proj2 (blockToCode_firstEnabled demo deadB)) eq_refl).
Defined.

(** X8, at two lines indented twice. *)
Lemma prefixLines_compose_witness :
  prefixLines (prefixLines ("a" +:+ nl +:+ "b" +:+ nl) "  ") "  "
  = "    a" +:+ nl +:+ "    b" +:+ nl.
Proof.
  refine (eq_trans
            (prefixLines_compose ("a" +:+ nl +:+ "b" +:+ nl) "  " "  " _ _ _) _);
    reflexivity.
Defined.

(** X12, at a dead chain between hello and world. *)
Lemma workspaceToCode_skips_disabled_witness :
  workspaceToCode demo ([helloB] ++ deadB :: [worldB]) st0
  = workspaceToCode demo ([helloB] ++ [worldB]) st0.
Proof. exact (workspaceToCode_skips_disabled demo [helloB] deadB [worldB] st0 eq_refl). Defined.

(** X13, at a block of a type without rule after hello. *)
Lemma workspaceToCode_aborts_witness :
  workspaceToCode demo ([helloB] ++ leaf "nope" :: [worldB]) st0
  = (Throw (Thrown ("Language " +:+ dq +:+ "Demo" +:+ dq
                    +:+ " does not know how to generate code for block type "
                    +:+ dq +:+ "nope" +:+ dq +:+ ".")), st0).
Proof.
  refine (workspaceToCode_aborts demo [helloB] (leaf "nope") [worldB] st0 st0
            ["print('hello')" +:+ nl +:+ "print('world')" +:+ nl] st0 _ st0 _ _ _);
    reflexivity.
Defined.

(** X14, at a function provided beside a definition of the binding. *)
Lemma provideFunction__frame_witness :
  definitions_ (provideFunction_ demo "foo" ["x"] stVars).2 !! "variables"
  = Some "var x;".
Proof.
  refine (eq_trans
            (proj1 (proj1 (provideFunction__frame demo "foo" ["x"] stVars)
                      "variables" _)) _);
    [discriminate|reflexivity].
Defined.

(** X15, at the name under which the binding has stored a definition. *)
Lemma provideFunction__undefined_witness :
  provideFunction_ demo "variables" ["f"] stVars = (Ok None, stVars).
Proof. exact (provideFunction__undefined demo "variables" ["f"] stVars eq_refl eq_refl). Defined.

(** X16, at a body of two lines without placeholder. *)
Lemma provideFunction__verbatim_witness :
  definitions_ (provideFunction_ demo "bar" ["x"; "y"] st0).2 !! "bar"
  = Some ("x" +:+ nl +:+ "y").
Proof. exact (provideFunction__verbatim demo "bar" ["x"; "y"] st0 eq_refl eq_refl). Defined.

(** X17, at a function that is named by the placeholder. *)
Lemma provideFunction__substitutes_witness :
  definitions_
    (provideFunction_ demo "isPrime" ["function {leCUI8hutHZI4480Dc}() {"; "}"] st0).2
  !! "isPrime"
  = Some ("function isPrime() {" +:+ nl +:+ "}").
Proof.
  refine (eq_trans
            (provideFunction__substitutes demo "isPrime"
               ["function {leCUI8hutHZI4480Dc}() {"; "}"]
               "function " ("() {" +:+ nl +:+ "}") st0 _ _ _ _) _);
    reflexivity.
Defined.

(** X18, after two functions have been provided. *)
Lemma inPass_names_witness :
  namesInjective
    (provideFunction_ demo "bar" ["y"] (provideFunction_ demo "foo" ["x"] st0).2).2
  /\ namesTaken
       (provideFunction_ demo "bar" ["y"] (provideFunction_ demo "foo" ["x"] st0).2).2.
Proof.
  apply (inPass_names demo).
  apply inPass_provide, inPass_provide, inPass_start. reflexivity.
Defined.

(** X21, at a first call and a second one with the same metrics. *)
Lemma resize_cached_witness :
  ScrollbarPair.resize (Some metrics0) (ScrollbarPair.resize (Some metrics0) None).1
  = (Some metrics0, []).
Proof. exact (proj2 (resize_cached metrics0 None eq_refl)). Defined.

(** X22, at the first call, which sets the corner. *)
Lemma resize_corner_needs_both_witness :
  exists m,
    Some metrics0 = Some m
    /\ In (ScrollbarPair.HScrollResize m) (ScrollbarPair.resize (Some metrics0) None).2
    /\ In (ScrollbarPair.VScrollResize m) (ScrollbarPair.resize (Some metrics0) None).2.
Proof.
  apply (resize_corner_needs_both (Some metrics0) None).
  left. right. right. left. reflexivity.
Defined.

(** X23, at content that has got wider and has been scrolled to the
    right. *)
Lemma resize_same_window_witness :
  (ScrollbarPair.resize (Some metrics1) (Some metrics0)).2
  = [ScrollbarPair.HScrollResize metrics1].
Proof. exact (resize_same_window metrics0 metrics1 eq_refl). Defined.
